(** * nodejs-architecture: the response / error / middleware contract

    A shallow embedding of the contract layer of the repository:
    - [core/errors.ts]            (module [Errors])
    - [core/response.ts]          (module [Response])
    - [config/index.ts]           (module [Config])
    - [middleware/errorHandler.ts] (module [ErrorHandler])
    - [middleware/validation.ts]  (module [Validate])
    - [middleware/auth.ts]        (module [Auth])
    - [modules/health/*]          (module [Health])
    - [config/database.ts]        (module [Database])
    - [middleware/rateLimiter.ts] (module [RateLimiter])

    JavaScript values are modelled as the code uses them: an error object is a
    record of its prototype link and the properties the code reads; an
    object literal is the list of its own properties in creation order;
    optional arguments and optional members are [option]s; integer-valued
    numbers are [Z], and the one division of the code ([sendPaginated]) is
    carried out on binary64 doubles as JavaScript does ([SpecFloat]). *)

From Stdlib Require Import ZArith QArith String Ascii List Lia DecimalString.
From Stdlib Require Import SpecFloat.
From stdpp Require Import base option list strings.
Import ListNotations.

Local Open Scope string_scope.
Local Open Scope list_scope.
Local Open Scope Z_scope.

(** ** JavaScript objects *)

Module Js.

(** An object literal / plain object: its own properties, in creation
    order.  Keys are unique by construction of the writers below. *)
Definition Props (V : Type) : Type := list (string * V).

Fixpoint own {V} (key : string) (o : Props V) : option V :=
  match o with
  | [] => None
  | (k, v) :: rest => if decide (k = key) then Some v else own key rest
  end.

Definition keys {V} (o : Props V) : list string := map fst o.

(** The property names every object created by [{}] inherits from
    [Object.prototype] (Node / V8).  Each of them reads as a truthy value
    that is not an array ([__proto__] reads as [Object.prototype]). *)
Definition Object_prototype_keys : list string :=
  [ "constructor"; "__defineGetter__"; "__defineSetter__"; "hasOwnProperty";
    "__lookupGetter__"; "__lookupSetter__"; "isPrototypeOf";
    "propertyIsEnumerable"; "toString"; "valueOf"; "__proto__";
    "toLocaleString" ].

(** Result of the property read [o[key]] on an object created by [{}]
    whose own properties are all arrays. *)
Inductive Read (V : Type) : Type :=
| Own (v : V)         (* an own property: the array stored there *)
| Inherited           (* found on Object.prototype: truthy, no [push] *)
| Undefined.          (* not found anywhere on the chain *)
Arguments Own {V} v.
Arguments Inherited {V}.
Arguments Undefined {V}.

Definition get {V} (o : Props V) (key : string) : Read V :=
  match own key o with
  | Some v => Own v
  | None =>
      if bool_decide (key ∈ Object_prototype_keys) then Inherited
      else Undefined
  end.

(** The prototype objects that can head the chain of an error value. *)
Inductive Prototype : Type :=
| Error_prototype
| SyntaxError_prototype
| TypeError_prototype
| AppError_prototype
| BadRequestError_prototype
| UnauthorizedError_prototype
| ForbiddenError_prototype
| NotFoundError_prototype
| ConflictError_prototype
| ValidationError_prototype
| TooManyRequestsError_prototype
| InternalServerError_prototype
| Foreign_prototype (class_name : string). (* a class of a library, extending Error *)

#[global] Instance Prototype_eq_dec : EqDecision Prototype.
Proof. solve_decision. Defined.

(** [Object.getPrototypeOf] on a prototype object, as the [extends]
    clauses fix it; [None] stands for [Object.prototype]. *)
Definition getPrototypeOf (p : Prototype) : option Prototype :=
  match p with
  | Error_prototype => None
  | SyntaxError_prototype | TypeError_prototype | AppError_prototype
  | Foreign_prototype _ => Some Error_prototype
  | BadRequestError_prototype | UnauthorizedError_prototype
  | ForbiddenError_prototype | NotFoundError_prototype
  | ConflictError_prototype | ValidationError_prototype
  | TooManyRequestsError_prototype | InternalServerError_prototype =>
      Some AppError_prototype
  end.

Fixpoint chain_from (depth : nat) (p : Prototype) : list Prototype :=
  match depth with
  | O => []
  | S d => p :: match getPrototypeOf p with
                | Some q => chain_from d q
                | None => []
                end
  end.

(** The class hierarchy is three levels deep. *)
Definition prototype_chain (p : Prototype) : list Prototype := chain_from 3 p.

(** An error value: its [[Prototype]] link and the properties the code
    reads.  [name] is the result of the read [err.name] (inherited from
    the prototype unless a class sets it); [has_body] is ['body' in err]. *)
Record JsError : Type := mkError {
  proto : Prototype;
  name : string;
  message : string;
  statusCode : option Z;
  code : option string;
  isOperational : option bool;
  errors : option (Props (list string));
  has_body : bool;
}.

(** [err instanceof C]: [C.prototype] occurs on the prototype chain. *)
Definition instanceof (err : JsError) (C : Prototype) : bool :=
  bool_decide (C ∈ prototype_chain (proto err)).

(** [new Error(message)] run for the class [new_target]. *)
Definition Error_ (new_target : Prototype) (message : string) : JsError :=
  {| proto := new_target; name := "Error"; message := message;
     statusCode := None; code := None; isOperational := None;
     errors := None; has_body := false |}.

(** The value a failed call such as [undefined(...)] throws. *)
Definition TypeError (message : string) : JsError :=
  {| proto := TypeError_prototype; name := "TypeError"; message := message;
     statusCode := None; code := None; isOperational := None;
     errors := None; has_body := false |}.

Definition setPrototypeOf (this : JsError) (p : Prototype) : JsError :=
  {| proto := p; name := name this; message := message this;
     statusCode := statusCode this; code := code this;
     isOperational := isOperational this; errors := errors this;
     has_body := has_body this |}.

End Js.

Export Js.

(** ** core/errors.ts *)

Module Errors.

Definition FieldErrors : Type := Props (list string).

(** [class AppError extends Error]: the constructor body.  [new_target]
    is the class the [new] expression names; the last statement,
    [Object.setPrototypeOf(this, AppError.prototype)], relinks the value
    to [AppError.prototype] whatever that class is. *)
Definition AppError_constructor (new_target : Prototype) (message : string)
    (statusCode : option Z) (code : option string)
    (isOperational : option bool) : JsError :=
  let this := Error_ new_target message in
  let this :=
    {| proto := proto this; name := name this; message := Js.message this;
       statusCode := Some (default 500 statusCode);
       code := Some (default "INTERNAL_ERROR" code);
       isOperational := Some (default true isOperational);
       errors := errors this; has_body := has_body this |} in
  setPrototypeOf this AppError_prototype.

Definition AppError (message : string) (statusCode : option Z)
    (code : option string) (isOperational : option bool) : JsError :=
  AppError_constructor AppError_prototype message statusCode code isOperational.

Definition BadRequestError (message code : option string) : JsError :=
  AppError_constructor BadRequestError_prototype
    (default "Bad Request" message) (Some 400)
    (Some (default "BAD_REQUEST" code)) None.

Definition UnauthorizedError (message code : option string) : JsError :=
  AppError_constructor UnauthorizedError_prototype
    (default "Unauthorized" message) (Some 401)
    (Some (default "UNAUTHORIZED" code)) None.

Definition ForbiddenError (message code : option string) : JsError :=
  AppError_constructor ForbiddenError_prototype
    (default "Forbidden" message) (Some 403)
    (Some (default "FORBIDDEN" code)) None.

Definition NotFoundError (message code : option string) : JsError :=
  AppError_constructor NotFoundError_prototype
    (default "Not Found" message) (Some 404)
    (Some (default "NOT_FOUND" code)) None.

Definition ConflictError (message code : option string) : JsError :=
  AppError_constructor ConflictError_prototype
    (default "Conflict" message) (Some 409)
    (Some (default "CONFLICT" code)) None.

Definition ValidationError (message : option string)
    (errors : option FieldErrors) : JsError :=
  let this :=
    AppError_constructor ValidationError_prototype
      (default "Validation Error" message) (Some 422)
      (Some "VALIDATION_ERROR") None in
  {| proto := proto this; name := name this; message := Js.message this;
     statusCode := statusCode this; code := code this;
     isOperational := isOperational this;
     errors := Some (default [] errors); has_body := has_body this |}.

Definition TooManyRequestsError (message code : option string) : JsError :=
  AppError_constructor TooManyRequestsError_prototype
    (default "Too Many Requests" message) (Some 429)
    (Some (default "RATE_LIMITED" code)) None.

Definition InternalServerError (message code : option string) : JsError :=
  AppError_constructor InternalServerError_prototype
    (default "Internal Server Error" message) (Some 500)
    (Some (default "INTERNAL_ERROR" code)) (Some false).

(** The four fields the taxonomy table lists. *)
Definition fields (e : JsError) : option Z * option string * string * option bool :=
  (statusCode e, code e, message e, isOperational e).

End Errors.

Export Errors.

(** ** config/index.ts *)

Module Config.

(** The members of [config] the contract layer reads; [NODE_ENV] is
    [process.env.NODE_ENV] ([None] when unset). *)
Record Config : Type := {
  env : string;
  isDevelopment : bool;
  isProduction : bool;
  isTest : bool;
}.

(** [a || b] on an optional string: the empty string is falsy too. *)
Definition or_else (a : option string) (b : string) : string :=
  match a with
  | Some s => if decide (s = "") then b else s
  | None => b
  end.

Definition config (NODE_ENV : option string) : Config :=
  {| env := or_else NODE_ENV "development";
     isDevelopment := bool_decide (NODE_ENV = Some "development");
     isProduction := bool_decide (NODE_ENV = Some "production");
     isTest := bool_decide (NODE_ENV = Some "test") |}.

End Config.

(** ** core/response.ts *)

Module Response.

(** A number as [Math.ceil] returns it: an integer, an infinity or NaN. *)
Inductive JsNumber : Type :=
| Finite (z : Z)
| PosInfinity
| NegInfinity
| NaN.

(** The Number value of an integer: the nearest binary64 double (53 bits
    of precision, ties to even), an infinity from 2^1024 on. *)
Definition double_of_Z (z : Z) : spec_float := binary_normalize 53 1024 z 0 false.

(** [Math.ceil]: the least integer not below the double.  A finite double
    is [m * 2 ^ e] with its sign; [Z.div] rounds down, so the ceiling is
    the negated floor of the negation.  (The double [-0] is read as 0.) *)
Definition Math_ceil (x : spec_float) : JsNumber :=
  match x with
  | S754_zero _ => Finite 0
  | S754_infinity false => PosInfinity
  | S754_infinity true => NegInfinity
  | S754_nan => NaN
  | S754_finite s m e =>
      let v := if s then Z.neg m else Z.pos m in
      Finite (if 0 <=? e then v * 2 ^ e else - ((- v) / 2 ^ (- e)))
  end.

(** [Math.ceil(a / b)] for integer-valued [a] and [b]: [/] is the binary64
    division, rounded to nearest, and a zero divisor gives an infinity of
    the sign of [a], or NaN for [0 / 0]. *)
Definition Math_ceil_div (a b : Z) : JsNumber :=
  if b =? 0 then
    if 0 <? a then PosInfinity else if a <? 0 then NegInfinity else NaN
  else Math_ceil (SFdiv 53 1024 (double_of_Z a) (double_of_Z b)).

(** [ApiResponse['meta']] as [sendPaginated] fills it. *)
Record Meta : Type := {
  page : Z;
  limit : Z;
  total : Z;
  totalPages : JsNumber;
}.

(** The values the members of an [ApiResponse<T>] hold. *)
Inductive Member (T : Type) : Type :=
| MBool (b : bool)
| MString (s : string)
| MData (d : T)
| MErrors (e : FieldErrors)
| MMeta (m : Meta).
Arguments MBool {T} b.
Arguments MString {T} s.
Arguments MData {T} d.
Arguments MErrors {T} e.
Arguments MMeta {T} m.

(** What [res.status(statusCode).json(response)] hands to the client. *)
Record HttpResponse (T : Type) : Type := {
  status : Z;
  body : Props (Member T);
}.
Arguments status {T} _.
Arguments body {T} _.

(** [...(x && { key: x })]: the member is spread in only when present. *)
Definition spread {A V} (x : option A) (member : A -> string * V) : Props V :=
  match x with
  | Some a => [member a]
  | None => []
  end.

Definition sendSuccess {T} (message : string) (data : option T)
    (statusCode : option Z) (meta : option Meta) : HttpResponse T :=
  let response :=
    [("success", MBool true); ("message", MString message)]
      ++ spread data (fun d => ("data", MData d))
      ++ spread meta (fun m => ("meta", MMeta m)) in
  {| status := default 200 statusCode; body := response |}.

Definition sendError {T} (message : string) (statusCode : option Z)
    (errors : option FieldErrors) : HttpResponse T :=
  let response :=
    [("success", MBool false); ("message", MString message)]
      ++ spread errors (fun e => ("errors", MErrors e)) in
  {| status := default 500 statusCode; body := response |}.

Record Pagination : Type := {
  pagination_page : Z;
  pagination_limit : Z;
  pagination_total : Z;
}.

Definition sendPaginated {T} (message : string) (data : list T)
    (pagination : Pagination) : HttpResponse (list T) :=
  let totalPages :=
    Math_ceil_div (pagination_total pagination) (pagination_limit pagination) in
  sendSuccess message (Some data) (Some 200)
    (Some {| page := pagination_page pagination;
             limit := pagination_limit pagination;
             total := pagination_total pagination;
             totalPages := totalPages |}).

(** The type argument of a bare [ApiResponse]. *)
Definition unknown : Type := unit.

End Response.

Export Response.

(** ** Express: requests and the chain of steps *)

Module Express.

(** Request payloads ([req.body], [req.query], [req.params]). *)
#[warnings="-register-all"]
Inductive json : Type :=
| JNull
| JBool (b : bool)
| JNumber (n : Z)
| JString (s : string)
| JArray (items : list json)
| JObject (members : list (string * json)).

Record User : Type := {
  id : string;
  email : string;
  role : string;
}.

(** [AuthenticatedRequest]: the members of the request the steps read. *)
Record Request : Type := {
  method : string;
  path : string;
  authorization : option string;   (* req.headers.authorization *)
  req_body : json;
  req_query : json;
  req_params : json;
  user : option User;
}.

(** How a step [(req, res, next) => ...] ends. *)
Inductive StepResult : Type :=
| Continue (req : Request)            (* next() *)
| Signal (err : JsError)              (* next(err) *)
| Throw (err : JsError)               (* an exception escapes the step *)
| Respond (res : HttpResponse unknown). (* the step writes the response *)

Definition Step : Type := Request -> StepResult.

(** Where a chain of steps leaves a request. *)
Inductive Outcome : Type :=
| Reached (req : Request)             (* every step called next() *)
| Failed (err : JsError)              (* handed to the error handler *)
| Answered (res : HttpResponse unknown).

(** Express runs the steps in order; [next(err)] and an exception caught
    by the router both skip the remaining steps. *)
Fixpoint run_chain (steps : list Step) (req : Request) : Outcome :=
  match steps with
  | [] => Reached req
  | step :: rest =>
      match step req with
      | Continue req' => run_chain rest req'
      | Signal err => Failed err
      | Throw err => Failed err
      | Respond res => Answered res
      end
  end.

End Express.

Export Express.

(** ** middleware/errorHandler.ts *)

Module ErrorHandler.

(** The metadata [logger.error('Error occurred:', {...})] records (the
    stack trace is not modelled). *)
Record LogEntry : Type := {
  log_text : string;
  log_message : string;
  log_name : string;
}.

Definition errorHandler (config : Config.Config) (err : JsError)
    : LogEntry * HttpResponse unknown :=
  let entry :=
    {| log_text := "Error occurred:"; log_message := message err;
       log_name := name err |} in
  (entry,
   if instanceof err AppError_prototype then
     if instanceof err ValidationError_prototype then
       sendError (message err) (statusCode err) (errors err)
     else
       sendError (message err) (statusCode err) None
   else if decide (name err = "PrismaClientKnownRequestError") then
     sendError "Database operation failed" (Some 400) None
   else if decide (name err = "PrismaClientValidationError") then
     sendError "Invalid data provided" (Some 400) None
   else if instanceof err SyntaxError_prototype && has_body err then
     sendError "Invalid JSON payload" (Some 400) None
   else
     let message :=
       if Config.isProduction config then "An unexpected error occurred"
       else message err in
     sendError message (Some 500) None).

Definition notFoundHandler (req : Request) : HttpResponse unknown :=
  sendError ("Route " +:+ method req +:+ " " +:+ path req +:+ " not found")
    (Some 404) None.

(** The response a client receives for an error signalled by a step. *)
Definition respond (config : Config.Config) (err : JsError) : HttpResponse unknown :=
  snd (errorHandler config err).

End ErrorHandler.

Export ErrorHandler.

(** ** middleware/validation.ts *)

Module Validate.

Inductive ValidationTarget : Type :=
| target_body
| target_query
| target_params.

(** Joi, as [validate] uses it: a schema is its [validate] method; a
    failed validation reports [error.details], each detail with a message
    and a path of keys and array indexes. *)
Inductive PathSegment : Type :=
| Key (k : string)
| Index (i : nat).

Record ValidationErrorItem : Type := {
  detail_message : string;
  detail_path : list PathSegment;
}.

Record ValidationOptions : Type := {
  abortEarly : bool;
  stripUnknown : bool;
}.

Record ValidationResult : Type := {
  error : option (list ValidationErrorItem);   (* error?.details *)
  value : json;
}.

Definition ObjectSchema : Type := json -> ValidationOptions -> ValidationResult.

Definition segment_string (seg : PathSegment) : string :=
  match seg with
  | Key k => k
  | Index i => NilEmpty.string_of_uint (Nat.to_uint i)
  end.

(** [detail.path.join('.')] *)
Definition join (sep : string) (path : list PathSegment) : string :=
  String.concat sep (map segment_string path).

Definition detail_key (detail : ValidationErrorItem) : string :=
  join "." (detail_path detail).

(** [errors[key].push(message)] on an own array. *)
Definition push (key message : string) (errors : FieldErrors) : FieldErrors :=
  map (fun kv => if decide (fst kv = key) then (fst kv, snd kv ++ [message]) else kv)
      errors.

(** The body of the [forEach] callback.  [errors] was created by [{}], so
    the read [errors[key]] also finds the members of [Object.prototype]:
    for such a key the guard [!errors[key]] is false, no array is stored,
    and calling the missing [push] throws. *)
Definition add_detail (errors : FieldErrors) (detail : ValidationErrorItem)
    : JsError + FieldErrors :=
  let key := detail_key detail in
  match Js.get errors key with
  | Undefined => inr (push key (detail_message detail) (errors ++ [(key, [])]))
  | Own _ => inr (push key (detail_message detail) errors)
  | Inherited => inl (TypeError "errors[key].push is not a function")
  end.

Fixpoint forEach (details : list ValidationErrorItem) (errors : FieldErrors)
    : JsError + FieldErrors :=
  match details with
  | [] => inr errors
  | detail :: rest =>
      match add_detail errors detail with
      | inl exn => inl exn
      | inr errors' => forEach rest errors'
      end
  end.

Definition read_target (target : ValidationTarget) (req : Request) : json :=
  match target with
  | target_body => req_body req
  | target_query => req_query req
  | target_params => req_params req
  end.

Definition write_target (target : ValidationTarget) (v : json) (req : Request)
    : Request :=
  {| method := method req; path := path req;
     authorization := authorization req;
     req_body := match target with target_body => v | _ => req_body req end;
     req_query := match target with target_query => v | _ => req_query req end;
     req_params := match target with target_params => v | _ => req_params req end;
     user := user req |}.

Definition validate (schema : ObjectSchema) (target : option ValidationTarget)
    : Step :=
  fun req =>
    let target := default target_body target in
    let data := read_target target req in
    let result := schema data {| abortEarly := false; stripUnknown := true |} in
    match error result with
    | Some details =>
        match forEach details [] with
        | inl exn => Throw exn
        | inr errors =>
            Signal (ValidationError (Some "Validation failed") (Some errors))
        end
    | None => Continue (write_target target (value result) req)
    end.

End Validate.

Export Validate.

(** ** middleware/auth.ts *)

Module Auth.

(** [s.split(sep)] for a one-character separator. *)
Fixpoint split (sep : ascii) (s : string) : list string :=
  match s with
  | EmptyString => [EmptyString]
  | String c rest =>
      if Ascii.eqb c sep then EmptyString :: split sep rest
      else match split sep rest with
           | piece :: pieces => String c piece :: pieces
           | [] => [String c EmptyString]
           end
  end.

Definition startsWith (s p : string) : bool := String.prefix p s.

(** Truthiness of a string that may be [undefined]. *)
Definition truthy (s : option string) : bool :=
  match s with
  | Some s => negb (String.eqb s "")
  | None => false
  end.

(** The [try] block of [authenticate]: [inl] is a [throw], [inr] is the
    call [next()] at its end. *)
Definition authenticate_try (req : Request) : JsError + unit :=
  let authHeader := authorization req in
  if negb (truthy authHeader)
     || negb (startsWith (default "" authHeader) "Bearer ") then
    inl (UnauthorizedError (Some "No token provided") None)
  else
    let token := nth_error (split " "%char (default "" authHeader)) 1 in
    if negb (truthy token) then
      inl (UnauthorizedError (Some "Invalid token") None)
    else inr tt.

Definition authenticate : Step :=
  fun req =>
    match authenticate_try req with
    | inr _ => Continue req
    | inl error => Signal error
    end.

(** [allowedRoles.includes(role)] *)
Fixpoint includes (allowedRoles : list string) (role : string) : bool :=
  match allowedRoles with
  | [] => false
  | r :: rest => if decide (r = role) then true else includes rest role
  end.

Definition authorize (allowedRoles : list string) : Step :=
  fun req =>
    match user req with
    | None => Signal (UnauthorizedError (Some "User not authenticated") None)
    | Some u =>
        if negb (includes allowedRoles (role u)) then
          Signal (UnauthorizedError (Some "Insufficient permissions") None)
        else Continue req
    end.

Definition optionalAuth : Step := fun req => Continue req.

End Auth.

Export Auth.

(** ** modules/health *)

Module Health.

Inductive Status : Type := healthy | unhealthy | degraded.

Inductive DbStatus : Type := connected | disconnected.

#[global] Instance Status_eq_dec : EqDecision Status.
Proof. solve_decision. Defined.

#[global] Instance DbStatus_eq_dec : EqDecision DbStatus.
Proof. solve_decision. Defined.

Record HealthStatus : Type := {
  hs_status : Status;
  hs_timestamp : string;
  hs_uptime : Q;
  hs_version : string;
}.

Record DatabaseHealth : Type := {
  db_status : DbStatus;
  latency : option Z;
}.

Record Dependencies : Type := {
  database : DatabaseHealth;
}.

Record MemoryUsage : Type := {
  used : Z;
  total_heap : Z;
  percentage : Z;
}.

Record DetailedHealthStatus : Type := {
  status : Status;
  timestamp : string;
  uptime : Q;
  version : string;
  dependencies : Dependencies;
  memory : MemoryUsage;
}.

(** What the database ping does during one call of [checkDatabase]. *)
Inductive Ping : Type :=
| NotInitialized                 (* getDatabase() throws *)
| QueryRejected                  (* prisma.$queryRaw rejects *)
| QueryResolved (start finish : Z). (* Date.now() before and after *)

(** What the process and the database report during one request. *)
Record Probe : Type := {
  now_iso : string;                      (* new Date().toISOString() *)
  process_uptime : Q;                    (* process.uptime() *)
  npm_package_version : option string;   (* process.env.npm_package_version *)
  ping : Ping;
  heapUsed : Z;
  heapTotal : Z;
}.

Definition status_string (s : Status) : string :=
  match s with
  | healthy => "healthy"
  | unhealthy => "unhealthy"
  | degraded => "degraded"
  end.

Section Service.

(** [Math.round((used / total) * 100)] in double arithmetic, kept abstract. *)
Variable Math_round_percent : Z -> Z -> Z.

Definition getHealthStatus (p : Probe) : HealthStatus :=
  {| hs_status := healthy;
     hs_timestamp := now_iso p;
     hs_uptime := process_uptime p;
     hs_version := Config.or_else (npm_package_version p) "1.0.0" |}.

Definition checkDatabase (p : Probe) : DatabaseHealth :=
  match ping p with
  | QueryResolved start finish =>
      {| db_status := connected; latency := Some (finish - start) |}
  | NotInitialized | QueryRejected =>
      {| db_status := disconnected; latency := None |}
  end.

Definition getMemoryUsage (p : Probe) : MemoryUsage :=
  {| used := heapUsed p; total_heap := heapTotal p;
     percentage := Math_round_percent (heapUsed p) (heapTotal p) |}.

Definition determineOverallStatus (statuses : list DbStatus) : Status :=
  let disconnectedCount :=
    length (filter (fun s => s = disconnected) statuses) in
  if decide (disconnectedCount = length statuses) then unhealthy
  else if decide (0 < disconnectedCount)%nat then degraded
  else healthy.

Definition getDetailedHealth (p : Probe) : DetailedHealthStatus :=
  let basicHealth := getHealthStatus p in
  let dbHealth := checkDatabase p in
  let memoryUsage := getMemoryUsage p in
  let overallStatus := determineOverallStatus [db_status dbHealth] in
  {| status := overallStatus;
     timestamp := hs_timestamp basicHealth;
     uptime := hs_uptime basicHealth;
     version := hs_version basicHealth;
     dependencies := {| database := dbHealth |};
     memory := memoryUsage |}.

(** [HealthController.check] and [HealthController.detailed] *)
Definition check (p : Probe) : HttpResponse HealthStatus :=
  let health := getHealthStatus p in
  sendSuccess "Service is healthy" (Some health) None None.

Definition detailed (p : Probe) : HttpResponse DetailedHealthStatus :=
  let health := getDetailedHealth p in
  let statusCode := if decide (status health = healthy) then 200 else 503 in
  sendSuccess ("Service is " +:+ status_string (status health)) (Some health)
    (Some statusCode) None.

End Service.

End Health.

Export Health.

(** ** Predicates used to state the properties *)

Module Predicates.

(** The guards of [errorHandler] that send an error past every special
    case, down to its last branch. *)
Definition falls_through (err : JsError) : Prop :=
  instanceof err AppError_prototype = false
  /\ name err <> "PrismaClientKnownRequestError"
  /\ name err <> "PrismaClientValidationError"
  /\ (instanceof err SyntaxError_prototype && has_body err) = false.

(** The failure envelope without a field-error map. *)
Definition failure (statusCode : Z) (message : string) : HttpResponse unknown :=
  {| Response.status := statusCode;
     body := [("success", MBool false); ("message", MString message)] |}.

(** An error of the Unauthorized kind, and of the Forbidden kind. *)
Definition is_unauthorized (err : JsError) : Prop :=
  statusCode err = Some 401 /\ code err = Some "UNAUTHORIZED".

Definition is_forbidden (err : JsError) : Prop :=
  statusCode err = Some 403 \/ code err = Some "FORBIDDEN".

(** The database ping of a probe went through. *)
Definition ping_succeeds (p : Probe) : Prop :=
  exists start finish, ping p = QueryResolved start finish.

(** The messages of the details filed under [key], in the order reported. *)
Definition messages_for (key : string) (details : list ValidationErrorItem)
    : list string :=
  map detail_message (filter (fun d => detail_key d = key) details).

(** No reported path spells a member of [Object.prototype]. *)
Definition plain_keys (details : list ValidationErrorItem) : Prop :=
  Forall (fun d => detail_key d ∉ Object_prototype_keys) details.

(** What the object under construction holds once the details [seen]
    have been filed: one own array per reported key, with that key's
    messages in the order reported. *)
Definition files (errors : FieldErrors) (seen : list ValidationErrorItem) : Prop :=
  NoDup (keys errors)
  /\ forall key,
       Js.own key errors =
         match messages_for key seen with
         | [] => None
         | msgs => Some msgs
         end.

End Predicates.

Export Predicates.

(** ** config/database.ts *)

Module Database.

(** A [PrismaClient] object: the rank of its creation among the clients
    this module created, and the [log] option it was created with. *)
Record PrismaClient : Type := {
  client_id : nat;
  client_log : list string;
}.

Inductive Level : Type := info | error.

(** The module: the variable [prisma] (unset until [initializeDatabase]
    assigns it), the number of clients created so far, and what the
    module wrote to the logger, oldest first. *)
Record State : Type := {
  prisma : option PrismaClient;
  created : nat;
  journal : list (Level * string);
}.

Definition initial : State :=
  {| prisma := None; created := O; journal := [] |}.

Definition log (level : Level) (text : string) (st : State) : State :=
  {| prisma := prisma st; created := created st;
     journal := journal st ++ [(level, text)] |}.

(** [initializeDatabase]: [isDevelopment] is [config.isDevelopment];
    [connect] is how [prisma.$connect()] settles ([None]: it resolves,
    [Some e]: it rejects with [e]).  [inl] is a rejection of the returned
    promise.  The constructor [new PrismaClient] is taken to return. *)
Definition initializeDatabase (isDevelopment : bool) (connect : option JsError)
    (st : State) : (JsError + PrismaClient) * State :=
  let client :=
    {| client_id := created st;
       client_log := if isDevelopment then ["query"; "info"; "warn"; "error"]
                     else ["error"] |} in
  let st :=
    {| prisma := Some client; created := S (created st);
       journal := journal st |} in
  match connect with
  | None => (inr client, log info "Database connection established" st)
  | Some e => (inl e, log error "Failed to connect to database:" st)
  end.

(** [disconnectDatabase]: [disconnect] is how [prisma.$disconnect()]
    settles when there is a client to call it on. *)
Definition disconnectDatabase (disconnect : option JsError) (st : State)
    : (JsError + unit) * State :=
  match prisma st, disconnect with
  | Some _, Some e => (inl e, st)
  | _, _ => (inr tt, log info "Database connection closed" st)
  end.

Definition getDatabase (st : State) : JsError + PrismaClient :=
  match prisma st with
  | None =>
      inl (Error_ Error_prototype
             "Database not initialized. Call initializeDatabase first.")
  | Some client => inr client
  end.

(** The calls a program makes on the module, in order. *)
Inductive Call : Type :=
| Initialize (isDevelopment : bool) (connect : option JsError)
| Disconnect (disconnect : option JsError)
| Get.

Definition call (st : State) (c : Call) : State :=
  match c with
  | Initialize isDevelopment connect =>
      snd (initializeDatabase isDevelopment connect st)
  | Disconnect disconnect => snd (disconnectDatabase disconnect st)
  | Get => st
  end.

Definition run (calls : list Call) (st : State) : State :=
  fold_left call calls st.

Definition is_initialize (c : Call) : bool :=
  match c with
  | Initialize _ _ => true
  | _ => false
  end.

(** The ping [checkDatabase] observes on a module in state [st]:
    [getDatabase()] first, then the query, which settles as [query] says
    ([Some (start, finish)]: resolved between these two clock readings). *)
Definition observed_ping (st : State) (query : option (Z * Z)) : Ping :=
  match getDatabase st with
  | inl _ => NotInitialized
  | inr _ =>
      match query with
      | Some (start, finish) => QueryResolved start finish
      | None => QueryRejected
      end
  end.

End Database.

(** ** middleware/rateLimiter.ts *)

Module RateLimiter.

(** The options handed to [rateLimit]; counting the requests of a window
    is the library's part. *)
Record Options : Type := {
  windowMs : Z;
  max : Z;
  message : option string;
  standardHeaders : bool;
  legacyHeaders : bool;
  handler : Step;
}.

(** [windowMs] and [maxRequests] are [config.rateLimit]. *)
Definition defaultRateLimiter (config_windowMs config_maxRequests : Z) : Options :=
  {| windowMs := config_windowMs;
     max := config_maxRequests;
     message := Some "Too many requests, please try again later";
     standardHeaders := true;
     legacyHeaders := false;
     handler := fun _ =>
       Signal (TooManyRequestsError
                 (Some "Too many requests, please try again later") None) |}.

Definition strictRateLimiter : Options :=
  {| windowMs := 15 * 60 * 1000;
     max := 10;
     message := Some "Too many attempts, please try again later";
     standardHeaders := true;
     legacyHeaders := false;
     handler := fun _ =>
       Signal (TooManyRequestsError
                 (Some "Too many attempts, please try again later") None) |}.

Definition createRateLimiter (windowMs max : Z) : Options :=
  {| windowMs := windowMs;
     max := max;
     message := None;
     standardHeaders := true;
     legacyHeaders := false;
     handler := fun _ =>
       Signal (TooManyRequestsError (Some "Rate limit exceeded") None) |}.

End RateLimiter.

(** ** Measures used to state further properties *)

Module Measures.

(** The number of messages a field-error map holds. *)
Definition count_messages (errors : FieldErrors) : nat :=
  sum_list_with (fun kv => length (snd kv)) errors.

(** The messages with which the authentication and authorisation steps
    reject a request. *)
Definition auth_messages : list string :=
  [ "No token provided"; "Invalid token"; "User not authenticated";
    "Insufficient permissions" ].

(** The messages a production response carries for an error outside the
    taxonomy. *)
Definition fixed_messages : list string :=
  [ "Database operation failed"; "Invalid data provided";
    "Invalid JSON payload"; "An unexpected error occurred" ].

(** Two errors look alike to the error handler. *)
Definition same_to_handler (err err' : JsError) : Prop :=
  proto err = proto err' /\ name err = name err'
  /\ Js.message err = Js.message err' /\ statusCode err = statusCode err'
  /\ errors err = errors err' /\ has_body err = has_body err'.

#[global] Instance ValidationTarget_eq_dec : EqDecision ValidationTarget.
Proof. solve_decision. Defined.

(** The route message of [notFoundHandler]. *)
Definition route_message (req : Request) : string :=
  "Route " +:+ method req +:+ " " +:+ path req +:+ " not found".

End Measures.

Export Measures.

(** * Properties *)

(** ** Error taxonomy *)

(** C3: every constructor of the taxonomy, called without arguments,
    yields the status, code and message of the table (the Validation kind
    with an empty field-error map); a message and, for every kind but
    Validation, a code given by the caller replace the defaults, each on
    its own, while the status stays; [isOperational] is true for every
    kind but InternalServer, where it is false, whatever the arguments. *)
Theorem taxonomy_table :
  (fields (BadRequestError None None)
     = (Some 400, Some "BAD_REQUEST", "Bad Request", Some true)
   /\ fields (UnauthorizedError None None)
     = (Some 401, Some "UNAUTHORIZED", "Unauthorized", Some true)
   /\ fields (ForbiddenError None None)
     = (Some 403, Some "FORBIDDEN", "Forbidden", Some true)
   /\ fields (NotFoundError None None)
     = (Some 404, Some "NOT_FOUND", "Not Found", Some true)
   /\ fields (ConflictError None None)
     = (Some 409, Some "CONFLICT", "Conflict", Some true)
   /\ fields (ValidationError None None)
     = (Some 422, Some "VALIDATION_ERROR", "Validation Error", Some true)
   /\ errors (ValidationError None None) = Some []
   /\ fields (TooManyRequestsError None None)
     = (Some 429, Some "RATE_LIMITED", "Too Many Requests", Some true)
   /\ fields (InternalServerError None None)
     = (Some 500, Some "INTERNAL_ERROR", "Internal Server Error", Some false))
  /\ (forall m c : option string,
        fields (BadRequestError m c)
          = (Some 400, Some (default "BAD_REQUEST" c),
             default "Bad Request" m, Some true)
        /\ fields (UnauthorizedError m c)
          = (Some 401, Some (default "UNAUTHORIZED" c),
             default "Unauthorized" m, Some true)
        /\ fields (ForbiddenError m c)
          = (Some 403, Some (default "FORBIDDEN" c),
             default "Forbidden" m, Some true)
        /\ fields (NotFoundError m c)
          = (Some 404, Some (default "NOT_FOUND" c),
             default "Not Found" m, Some true)
        /\ fields (ConflictError m c)
          = (Some 409, Some (default "CONFLICT" c),
             default "Conflict" m, Some true)
        /\ fields (TooManyRequestsError m c)
          = (Some 429, Some (default "RATE_LIMITED" c),
             default "Too Many Requests" m, Some true)
        /\ fields (InternalServerError m c)
          = (Some 500, Some (default "INTERNAL_ERROR" c),
             default "Internal Server Error" m, Some false))
  /\ (forall (m : option string) (e : option FieldErrors),
        fields (ValidationError m e)
          = (Some 422, Some "VALIDATION_ERROR",
             default "Validation Error" m, Some true)
        /\ errors (ValidationError m e) = Some (default [] e)).
Proof.
  split; [repeat split|].
  split; intros; repeat split.
Qed.

(** Every constructor of the taxonomy leaves its value linked to
    [AppError.prototype]: the subclass prototypes head no constructed
    value. *)
Lemma constructed_proto (m c : option string) (e : option FieldErrors) :
  Forall (fun err => proto err = AppError_prototype)
    [ BadRequestError m c; UnauthorizedError m c; ForbiddenError m c;
      NotFoundError m c; ConflictError m c; ValidationError m e;
      TooManyRequestsError m c; InternalServerError m c ].
Proof. repeat constructor. Qed.

Lemma instanceof_AppError_chain (err : JsError) :
  instanceof err ValidationError_prototype = true ->
  instanceof err AppError_prototype = true.
Proof.
  unfold instanceof. destruct (proto err); vm_compute; congruence.
Qed.

(** ** Global error handler *)

Section Sink.

Variable cfg : Config.Config.

(** The branches of [errorHandler], each under the guards that lead to it. *)
Lemma errorHandler_validation (err : JsError) :
  instanceof err ValidationError_prototype = true ->
  respond cfg err = sendError (message err) (statusCode err) (errors err).
Proof.
  intros Hv. unfold respond, errorHandler; simpl.
  now rewrite (instanceof_AppError_chain err Hv), Hv.
Qed.

Lemma errorHandler_taxonomy (err : JsError) :
  instanceof err AppError_prototype = true ->
  instanceof err ValidationError_prototype = false ->
  respond cfg err = sendError (message err) (statusCode err) None.
Proof.
  intros Ha Hv. unfold respond, errorHandler; simpl. now rewrite Ha, Hv.
Qed.

Lemma errorHandler_known_request (err : JsError) :
  instanceof err AppError_prototype = false ->
  name err = "PrismaClientKnownRequestError" ->
  respond cfg err = failure 400 "Database operation failed".
Proof.
  intros Ha Hn. unfold respond, errorHandler; simpl. rewrite Ha.
  now rewrite decide_True by exact Hn.
Qed.

Lemma errorHandler_db_validation (err : JsError) :
  instanceof err AppError_prototype = false ->
  name err = "PrismaClientValidationError" ->
  respond cfg err = failure 400 "Invalid data provided".
Proof.
  intros Ha Hn. unfold respond, errorHandler; simpl. rewrite Ha.
  rewrite decide_False by (rewrite Hn; discriminate).
  now rewrite decide_True by exact Hn.
Qed.

Lemma errorHandler_body_parse (err : JsError) :
  instanceof err AppError_prototype = false ->
  name err <> "PrismaClientKnownRequestError" ->
  name err <> "PrismaClientValidationError" ->
  instanceof err SyntaxError_prototype = true ->
  has_body err = true ->
  respond cfg err = failure 400 "Invalid JSON payload".
Proof.
  intros Ha Hk Hv Hs Hb. unfold respond, errorHandler; simpl. rewrite Ha.
  rewrite !decide_False by assumption. now rewrite Hs, Hb.
Qed.

Lemma errorHandler_unknown (err : JsError) :
  falls_through err ->
  respond cfg err =
    failure 500 (if Config.isProduction cfg then "An unexpected error occurred"
                 else message err).
Proof.
  intros (Ha & Hk & Hv & Hs). unfold respond, errorHandler; simpl. rewrite Ha.
  rewrite !decide_False by assumption. now rewrite Hs.
Qed.

(** The guards are exhaustive: an error takes exactly one of the branches. *)
Lemma errorHandler_cases (err : JsError) :
  instanceof err AppError_prototype = true
  \/ (instanceof err AppError_prototype = false
      /\ name err = "PrismaClientKnownRequestError")
  \/ (instanceof err AppError_prototype = false
      /\ name err = "PrismaClientValidationError")
  \/ (instanceof err AppError_prototype = false
      /\ name err <> "PrismaClientKnownRequestError"
      /\ name err <> "PrismaClientValidationError"
      /\ instanceof err SyntaxError_prototype = true /\ has_body err = true)
  \/ falls_through err.
Proof.
  unfold falls_through.
  destruct (instanceof err AppError_prototype); [now left|right].
  destruct (decide (name err = "PrismaClientKnownRequestError")); [now left|right].
  destruct (decide (name err = "PrismaClientValidationError")); [now left|right].
  destruct (instanceof err SyntaxError_prototype) eqn:Hs, (has_body err) eqn:Hb;
    simpl; auto 10.
Qed.

End Sink.

(** X2: precedence in [errorHandler], read on the prototype chain: a value
    with [ValidationError.prototype] on its chain is answered with its
    status, message and field-error map; any other value with
    [AppError.prototype] on its chain with its status and message alone;
    then the two database names, the body-parse syntax error, and 500 for
    the rest, each branch only when all earlier guards fail. *)
Theorem errorHandler_precedence (cfg : Config.Config) (err : JsError) :
  (instanceof err ValidationError_prototype = true ->
     respond cfg err = sendError (message err) (statusCode err) (errors err))
  /\ (instanceof err AppError_prototype = true ->
      instanceof err ValidationError_prototype = false ->
     respond cfg err = sendError (message err) (statusCode err) None)
  /\ (instanceof err AppError_prototype = false ->
      name err = "PrismaClientKnownRequestError" ->
     respond cfg err = failure 400 "Database operation failed")
  /\ (instanceof err AppError_prototype = false ->
      name err = "PrismaClientValidationError" ->
     respond cfg err = failure 400 "Invalid data provided")
  /\ (instanceof err AppError_prototype = false ->
      name err <> "PrismaClientKnownRequestError" ->
      name err <> "PrismaClientValidationError" ->
      instanceof err SyntaxError_prototype = true -> has_body err = true ->
     respond cfg err = failure 400 "Invalid JSON payload")
  /\ (falls_through err -> Response.status (respond cfg err) = 500).
Proof.
  repeat split.
  - apply errorHandler_validation.
  - apply errorHandler_taxonomy.
  - apply errorHandler_known_request.
  - apply errorHandler_db_validation.
  - apply errorHandler_body_parse.
  - intros H. now rewrite errorHandler_unknown.
Qed.

(** A value built by the Validation constructor never takes the first
    branch: the constructor of [AppError] relinked it to
    [AppError.prototype], so its field-error map is left out. *)
Theorem constructed_validation_loses_errors (cfg : Config.Config)
    (m : option string) (e : option FieldErrors) :
  instanceof (ValidationError m e) ValidationError_prototype = false
  /\ respond cfg (ValidationError m e) = failure 422 (default "Validation Error" m)
  /\ Js.own "errors" (body (respond cfg (ValidationError m e))) = None.
Proof. repeat split. Qed.

(** C1: the error handler on the Validation error that [validate] signals
    for a missing [email]: the answer is 422 with the message and without
    the field-error map the error carries. *)
Theorem errorHandler_validation_error_without_map :
  let err :=
    ValidationError (Some "Validation failed")
      (Some [("email", ["Email is required"])]) in
  errors err = Some [("email", ["Email is required"])]
  /\ instanceof err AppError_prototype = true
  /\ instanceof err ValidationError_prototype = false
  /\ respond (Config.config None) err = failure 422 "Validation failed"
  /\ Js.own "errors" (body (respond (Config.config None) err)) = None.
Proof. repeat split. Qed.

(** C2: an error that reaches the last branch of the error handler is
    answered with status 500; in production the message is the fixed text
    whatever the error says, so two such errors get the same response; in
    any other environment the message is the error's own. *)
Theorem unknown_error_response (NODE_ENV : option string) (err err' : JsError) :
  falls_through err -> falls_through err' ->
  (NODE_ENV = Some "production" ->
     respond (Config.config NODE_ENV) err
       = failure 500 "An unexpected error occurred"
     /\ respond (Config.config NODE_ENV) err
       = respond (Config.config NODE_ENV) err')
  /\ (NODE_ENV <> Some "production" ->
     respond (Config.config NODE_ENV) err = failure 500 (message err)).
Proof.
  intros H H'. rewrite !errorHandler_unknown by assumption. simpl.
  split; intros Henv.
  - now rewrite bool_decide_eq_true_2 by exact Henv.
  - now rewrite bool_decide_eq_false_2 by exact Henv.
Qed.

Lemma unknown_error_response_witness :
  respond (Config.config (Some "production")) (TypeError "x is not a function")
    = respond (Config.config (Some "production")) (Error_ Error_prototype "disk full")
  /\ respond (Config.config (Some "test")) (TypeError "x is not a function")
    = failure 500 "x is not a function".
Proof.
  assert (F1 : falls_through (TypeError "x is not a function"))
    by (repeat split; discriminate).
  assert (F2 : falls_through (Error_ Error_prototype "disk full"))
    by (repeat split; discriminate).
  split.
  - apply (unknown_error_response (Some "production") _ _ F1 F2). reflexivity.
  - apply (unknown_error_response (Some "test") _ _ F1 F2). discriminate.
Defined.

(** Every response of the error handler is a failure envelope: [success]
    is false, a message is present, and the only other member it can have
    is [errors]. *)
Lemma sendError_members {T} (m : string) (sc : option Z) (e : option FieldErrors) :
  Js.own "success" (body (sendError (T:=T) m sc e)) = Some (MBool false)
  /\ Js.own "message" (body (sendError (T:=T) m sc e)) = Some (MString m)
  /\ Js.own "code" (body (sendError (T:=T) m sc e)) = None
  /\ keys (body (sendError (T:=T) m sc e)) ⊆ ["success"; "message"; "errors"].
Proof.
  destruct e; repeat split; simpl; intros x; rewrite !elem_of_cons; tauto.
Qed.

Lemma respond_is_sendError (cfg : Config.Config) (err : JsError) :
  exists m sc e, respond cfg err = sendError m sc e.
Proof.
  unfold respond, errorHandler; simpl.
  repeat match goal with
         | |- context [if ?b then _ else _] => destruct b
         end; eauto.
Qed.

(** C7 (as the code has it): every error the handler answers gets an HTTP
    status and a failure envelope with [success = false] and a message;
    no response carries a [code] member; an error that reaches the last
    branch is answered with status 500, and so is a taxonomy value without
    a status. *)
Theorem error_response_envelope (cfg : Config.Config) (err : JsError) :
  let res := respond cfg err in
  Js.own "success" (body res) = Some (MBool false)
  /\ (exists m, Js.own "message" (body res) = Some (MString m))
  /\ Js.own "code" (body res) = None
  /\ keys (body res) ⊆ ["success"; "message"; "errors"]
  /\ (falls_through err -> Response.status res = 500)
  /\ (instanceof err AppError_prototype = true ->
      Response.status res = default 500 (statusCode err)).
Proof.
  destruct (respond_is_sendError cfg err) as (m & sc & e & Hr).
  pose proof (sendError_members (T:=unknown) m sc e) as (Hs & Hm & Hc & Hk).
  cbv zeta. rewrite Hr. repeat split; eauto.
  - intros H. rewrite <- Hr. now rewrite errorHandler_unknown.
  - intros Ha. rewrite <- Hr.
    destruct (instanceof err ValidationError_prototype) eqn:Hv.
    + now rewrite errorHandler_validation.
    + now rewrite errorHandler_taxonomy.
Qed.

(** C7, the claim as written fails: the response to an error of unknown
    shape has status 500 and no [code] member at all, and the error value
    itself has neither a status nor a code. *)
Lemma unknown_error_has_no_code :
  let err := Error_ Error_prototype "boom" in
  let res := respond (Config.config None) err in
  falls_through err
  /\ statusCode err = None /\ code err = None
  /\ Response.status res = 500
  /\ keys (body res) = ["success"; "message"]
  /\ Js.own "code" (body res) = None.
Proof. repeat split; discriminate. Qed.

(** ** Response envelope *)

(** *** The division of two safe integers

    [total / limit] is a binary64 division.  For operands below 2^53 the
    quotient is rounded to 53 digits; the lemmas below follow
    [SFdiv] through its rounding and show that [Math.ceil] of the rounded
    quotient is still the ceiling of the exact one. *)

(** [digits2_pos p] is the bit length of [p]. *)
Lemma digits2_pos_bounds (p : positive) :
  2 ^ (Z.pos (digits2_pos p) - 1) <= Z.pos p < 2 ^ Z.pos (digits2_pos p).
Proof.
  induction p as [p IH|p IH|]; simpl digits2_pos.
  - rewrite Pos2Z.inj_succ. change (Z.pos p~1) with (2 * Z.pos p + 1).
    replace (Z.succ (Z.pos (digits2_pos p)) - 1) with (Z.succ (Z.pos (digits2_pos p) - 1)) by lia.
    rewrite !Z.pow_succ_r by lia.
    generalize dependent (2 ^ (Z.pos (digits2_pos p) - 1)).
    generalize dependent (2 ^ Z.pos (digits2_pos p)). intros; lia.
  - rewrite Pos2Z.inj_succ. change (Z.pos p~0) with (2 * Z.pos p).
    replace (Z.succ (Z.pos (digits2_pos p)) - 1) with (Z.succ (Z.pos (digits2_pos p) - 1)) by lia.
    rewrite !Z.pow_succ_r by lia.
    generalize dependent (2 ^ (Z.pos (digits2_pos p) - 1)).
    generalize dependent (2 ^ Z.pos (digits2_pos p)). intros; lia.
  - simpl. lia.
Qed.

Lemma digits2_pos_unique (p : positive) (d : Z) :
  2 ^ (d - 1) <= Z.pos p < 2 ^ d -> Z.pos (digits2_pos p) = d.
Proof.
  intros [Hl Hu]. pose proof (digits2_pos_bounds p) as [Bl Bu].
  destruct (Z.lt_trichotomy (Z.pos (digits2_pos p)) d) as [H|[H|H]]; [|exact H|].
  - exfalso. assert (2 ^ Z.pos (digits2_pos p) <= 2 ^ (d - 1))
      by (apply Z.pow_le_mono_r; lia). lia.
  - exfalso. assert (0 <= d \/ d < 0) as [Hd|Hd] by lia.
    + assert (2 ^ d <= 2 ^ (Z.pos (digits2_pos p) - 1))
        by (apply Z.pow_le_mono_r; lia). lia.
    + rewrite (Z.pow_neg_r 2 d Hd) in Hu. lia.
Qed.

(** Appending [k] zero bits multiplies by [2 ^ k]. *)
Lemma iter_xO (p k : positive) :
  Z.pos (Pos.iter xO p k) = Z.pos p * 2 ^ Z.pos k.
Proof.
  induction k as [|k IH] using Pos.peano_ind.
  - simpl. lia.
  - rewrite Pos.iter_succ.
    change (Z.pos (Pos.iter xO p k)~0) with (2 * Z.pos (Pos.iter xO p k)).
    rewrite IH, Pos2Z.inj_succ, Z.pow_succ_r by lia. lia.
Qed.

(** In the normal range the exponent of a 53-digit mantissa. *)
Lemma fexp_normal (x : Z) : -1021 <= x -> fexp 53 1024 x = x - 53.
Proof. intros H. unfold fexp, emin. lia. Qed.

(** A 53-digit mantissa is kept; a 54-digit one loses its last bit. *)
Lemma shr_fexp_53 (p : positive) (e : Z) (l : location) :
  Z.pos (digits2_pos p) = 53 -> -1074 <= e ->
  shr_fexp 53 1024 (Z.pos p) e l = (shr_record_of_loc (Z.pos p) l, e).
Proof.
  intros Hd He. unfold shr_fexp. simpl Zdigits2. rewrite Hd.
  rewrite fexp_normal by lia. replace (53 + e - 53 - e) with 0 by lia. reflexivity.
Qed.

Lemma shr_fexp_54 (p : positive) (e : Z) (l : location) :
  Z.pos (digits2_pos p) = 54 -> -1075 <= e ->
  shr_fexp 53 1024 (Z.pos p) e l = (shr_1 (shr_record_of_loc (Z.pos p) l), e + 1).
Proof.
  intros Hd He. unfold shr_fexp. simpl Zdigits2. rewrite Hd.
  rewrite fexp_normal by lia. replace (54 + e - 53 - e) with 1 by lia. reflexivity.
Qed.

Lemma record_of_loc (m : Z) (l : location) :
  shr_m (shr_record_of_loc m l) = m
  /\ loc_of_shr_record (shr_record_of_loc m l) = l.
Proof. destruct l as [|[]]; split; reflexivity. Qed.

(** Rounding keeps the truncated mantissa or adds one. *)
Lemma round_nearest_even_step (m : Z) (l : location) :
  round_nearest_even m l = m \/ round_nearest_even m l = m + 1.
Proof. destruct l as [|[]]; simpl; auto. destruct (Z.even m); auto. Qed.

(** The value [m * 2 ^ ef] read at the scale [2 ^ e]. *)
Lemma Math_ceil_finite (pf : positive) (ef e M : Z) :
  e <= ef -> e <= 0 -> Z.pos pf * 2 ^ (ef - e) = M ->
  Math_ceil (S754_finite false pf ef) = Finite (- ((- M) / 2 ^ (- e))).
Proof.
  intros Hle He <-. unfold Math_ceil. f_equal.
  destruct (0 <=? ef) eqn:Hef.
  - apply Z.leb_le in Hef.
    replace (ef - e) with (ef + - e) by lia.
    rewrite Z.pow_add_r by lia.
    replace (- (Z.pos pf * (2 ^ ef * 2 ^ (- e)))) with ((- (Z.pos pf * 2 ^ ef)) * 2 ^ (- e)) by ring.
    rewrite Z.div_mul by (apply Z.pow_nonzero; lia). ring.
  - apply Z.leb_gt in Hef.
    replace (- e) with (- ef + (ef - e)) by lia.
    rewrite Z.pow_add_r by lia.
    replace (- (Z.pos pf * 2 ^ (ef - e))) with (- Z.pos pf * 2 ^ (ef - e)) by ring.
    rewrite Z.div_mul_cancel_r by (apply Z.pow_nonzero; lia).
    reflexivity.
Qed.

(** After rounding, the mantissa has 53 digits again: [2 ^ 53] is
    renormalised to [2 ^ 52] with the exponent raised. *)
Lemma shr_fexp_rounded (p : positive) (e M : Z) :
  Z.pos (digits2_pos p) = 53 -> -1074 <= e ->
  M = Z.pos p \/ M = Z.pos p + 1 ->
  exists pf ef,
    shr_fexp 53 1024 M e loc_Exact = (Build_shr_record (Z.pos pf) false false, ef)
    /\ e <= ef <= e + 1 /\ Z.pos pf * 2 ^ (ef - e) = M.
Proof.
  intros Hd He HM. pose proof (digits2_pos_bounds p) as Hb. rewrite Hd in Hb.
  change (2 ^ (53 - 1)) with 4503599627370496 in Hb.
  change (2 ^ 53) with 9007199254740992 in Hb.
  destruct (Z.eq_dec M 9007199254740992) as [->|Hne].
  - exists 4503599627370496%positive, (e + 1). split; [|split; [lia|]].
    + rewrite (shr_fexp_54 9007199254740992 e loc_Exact) by (try reflexivity; lia).
      reflexivity.
    + replace (e + 1 - e) with 1 by lia. reflexivity.
  - assert (HM' : exists pf, M = Z.pos pf /\ Z.pos (digits2_pos pf) = 53).
    { destruct HM as [->| ->].
      - exists p. split; [reflexivity | exact Hd].
      - exists (p + 1)%positive. split; [lia|].
        apply digits2_pos_unique.
        change (2 ^ (53 - 1)) with 4503599627370496.
        change (2 ^ 53) with 9007199254740992. lia. }
    destruct HM' as (pf & -> & Hdf).
    exists pf, e. split; [|split; [lia|]].
    + rewrite shr_fexp_53 by assumption. reflexivity.
    + replace (e - e) with 0 by lia. simpl. lia.
Qed.

Lemma round_ceil (p : positive) (e M : Z) :
  Z.pos (digits2_pos p) = 53 -> -1074 <= e <= 0 ->
  M = Z.pos p \/ M = Z.pos p + 1 ->
  Math_ceil
    (let '(mrs, e') := shr_fexp 53 1024 M e loc_Exact in
     match shr_m mrs with
     | 0 => S754_zero false
     | Z.pos m =>
         if e' <=? 1024 - 53 then S754_finite false m e' else S754_infinity false
     | Z.neg _ => S754_nan
     end)
  = Finite (- ((- M) / 2 ^ (- e))).
Proof.
  intros Hd He HM.
  destruct (shr_fexp_rounded p e M Hd ltac:(lia) HM) as (pf & ef & -> & Hef & Hv).
  cbv beta iota zeta. simpl shr_m.
  replace (ef <=? 1024 - 53) with true by (symmetry; apply Z.leb_le; lia).
  apply Math_ceil_finite; [lia | lia | exact Hv].
Qed.

(** [Math.ceil] of a rounded 53-digit, and of a rounded 54-digit,
    quotient. *)
Lemma round_ceil_53 (p : positive) (e : Z) (l : location) :
  Z.pos (digits2_pos p) = 53 -> -1074 <= e <= 0 ->
  Math_ceil (binary_round_aux 53 1024 false (Z.pos p) e l)
  = Finite (- ((- round_nearest_even (Z.pos p) l) / 2 ^ (- e))).
Proof.
  intros Hd He. unfold binary_round_aux.
  rewrite shr_fexp_53 by (try assumption; lia).
  cbv beta iota zeta.
  destruct (record_of_loc (Z.pos p) l) as [-> ->].
  apply (round_ceil p); [assumption | lia | apply round_nearest_even_step].
Qed.

Lemma round_ceil_54 (p : positive) (e : Z) (l : location) :
  Z.pos (digits2_pos p) = 54 -> -1075 <= e <= -1 ->
  Math_ceil (binary_round_aux 53 1024 false (Z.pos p) e l)
  = Finite (- ((- round_nearest_even (Z.pos p / 2)
                    (loc_of_shr_record (shr_1 (shr_record_of_loc (Z.pos p) l))))
               / 2 ^ (- (e + 1)))).
Proof.
  intros Hd He. unfold binary_round_aux.
  rewrite shr_fexp_54 by (try assumption; lia).
  cbv beta iota zeta.
  assert (Hhalf : exists p', shr_m (shr_1 (shr_record_of_loc (Z.pos p) l)) = Z.pos p'
                             /\ Z.pos p / 2 = Z.pos p'
                             /\ Z.pos (digits2_pos p') = 53).
  { destruct p as [p'|p'|]; [| |discriminate Hd].
    - exists p'. split; [destruct l as [|[]]; reflexivity|].
      split; [change (Z.pos p'~1) with (2 * Z.pos p' + 1);
              rewrite Z.mul_comm, Z.div_add_l by lia; reflexivity|].
      simpl digits2_pos in Hd. lia.
    - exists p'. split; [destruct l as [|[]]; reflexivity|].
      split; [change (Z.pos p'~0) with (2 * Z.pos p');
              rewrite Z.mul_comm, Z.div_mul by lia; reflexivity|].
      simpl digits2_pos in Hd. lia. }
  destruct Hhalf as (p' & -> & -> & Hd').
  apply (round_ceil p'); [assumption | lia | apply round_nearest_even_step].
Qed.

Lemma div_eucl_div_mod (x y : Z) : Z.div_eucl x y = (x / y, x mod y).
Proof. unfold Z.div, Z.modulo. destruct (Z.div_eucl x y); reflexivity. Qed.

(** A 53-digit integer mantissa is rounded to itself. *)
Lemma binary_round_aux_exact (m : positive) (e : Z) :
  Z.pos (digits2_pos m) = 53 -> -1074 <= e <= 971 ->
  binary_round_aux 53 1024 false (Z.pos m) e loc_Exact = S754_finite false m e.
Proof.
  intros Hd He. unfold binary_round_aux.
  rewrite shr_fexp_53 by (try assumption; lia). cbv beta iota zeta.
  simpl shr_m. simpl loc_of_shr_record. simpl round_nearest_even.
  rewrite shr_fexp_53 by (try assumption; lia). cbv beta iota zeta.
  simpl shr_m.
  replace (e <=? 1024 - 53) with true by (symmetry; apply Z.leb_le; lia).
  reflexivity.
Qed.

(** A positive integer below 2^53 is a double: its mantissa is the integer
    shifted to 53 digits. *)
Lemma double_of_Z_safe (a : Z) :
  1 <= a < 2 ^ 53 ->
  exists (ma : positive) (da : Z),
    double_of_Z a = S754_finite false ma (da - 53)
    /\ 1 <= da <= 53
    /\ Z.pos (digits2_pos ma) = 53
    /\ Z.pos ma = a * 2 ^ (53 - da)
    /\ a < 2 ^ da.
Proof.
  intros [Hl Hu]. destruct a as [|p|p]; try lia.
  pose proof (digits2_pos_bounds p) as [Bl Bu].
  set (da := Z.pos (digits2_pos p)) in *.
  assert (Hda : 1 <= da <= 53).
  { split; [unfold da; lia|].
    destruct (Z_le_gt_dec da 53) as [H|H]; [exact H|exfalso].
    assert (2 ^ 53 <= 2 ^ (da - 1)) by (apply Z.pow_le_mono_r; lia). lia. }
  unfold double_of_Z, binary_normalize, binary_round, shl_align.
  fold da. rewrite fexp_normal by lia.
  destruct (Z.eq_dec da 53) as [H53|Hne].
  - replace (da + 0 - 53 - 0) with 0 by lia.
    exists p, da. rewrite binary_round_aux_exact by (fold da; lia).
    replace (da - 53) with 0 by lia. replace (53 - da) with 0 by lia.
    split; [reflexivity|]. split; [exact Hda|]. split; [exact H53|].
    split; [simpl; lia | exact Bu].
  - assert (Hk : exists k, da + 0 - 53 - 0 = Z.neg k /\ Z.pos k = 53 - da).
    { destruct (da + 0 - 53 - 0) as [|k|k] eqn:Hz; try lia.
      exists k. split; [reflexivity | lia]. }
    destruct Hk as (k & -> & Hk).
    assert (Hm : Z.pos (Pos.iter xO p k) = Z.pos p * 2 ^ (53 - da))
      by (rewrite iter_xO, Hk; reflexivity).
    assert (Hd : Z.pos (digits2_pos (Pos.iter xO p k)) = 53).
    { apply digits2_pos_unique. rewrite Hm.
      replace (2 ^ (53 - 1)) with (2 ^ (da - 1) * 2 ^ (53 - da))
        by (rewrite <- Z.pow_add_r by lia; f_equal; lia).
      replace (2 ^ 53) with (2 ^ da * 2 ^ (53 - da))
        by (rewrite <- Z.pow_add_r by lia; f_equal; lia).
      assert (0 < 2 ^ (53 - da)) by (apply Z.pow_pos_nonneg; lia).
      split; [apply Z.mul_le_mono_nonneg_r; lia
             | apply Z.mul_lt_mono_pos_r; lia]. }
    exists (Pos.iter xO p k), da.
    rewrite binary_round_aux_exact by (try exact Hd; lia).
    replace (da + 0 - 53) with (da - 53) by lia.
    split; [reflexivity|]. split; [exact Hda|]. split; [exact Hd|].
    split; [exact Hm | exact Bu].
Qed.

(** The quotient of two normal doubles: the integer division of the
    mantissas, the dividend shifted by 53 bits, then rounded. *)
Lemma SFdiv_normal (ma mb : positive) (ea eb : Z) :
  Z.pos (digits2_pos ma) = 53 -> Z.pos (digits2_pos mb) = 53 ->
  -1021 <= ea - eb ->
  SFdiv 53 1024 (S754_finite false ma ea) (S754_finite false mb eb)
  = binary_round_aux 53 1024 false
      ((Z.pos ma * 2 ^ 53) / Z.pos mb) (ea - eb - 53)
      (new_location (Z.pos mb) ((Z.pos ma * 2 ^ 53) mod Z.pos mb)).
Proof.
  intros Ha Hb He. unfold SFdiv, SFdiv_core_binary.
  simpl Zdigits2. rewrite Ha, Hb.
  rewrite fexp_normal by lia.
  replace (Z.min (53 + ea - (53 + eb) - 53) (ea - eb)) with (ea - eb - 53) by lia.
  replace (ea - eb - (ea - eb - 53)) with 53 by lia.
  cbv beta iota zeta.
  rewrite Z.shiftl_mul_pow2 by lia.
  rewrite div_eucl_div_mod. reflexivity.
Qed.

(** The remainder decides whether the division was exact. *)
Lemma new_location_zero (steps : Z) : new_location steps 0 = loc_Exact.
Proof.
  unfold new_location, new_location_even, new_location_odd.
  destruct (Z.even steps); reflexivity.
Qed.

Lemma new_location_nonzero (steps r : Z) :
  r <> 0 -> exists c, new_location steps r = loc_Inexact c.
Proof.
  intros Hr. apply Z.eqb_neq in Hr. unfold new_location.
  destruct (Z.even steps); unfold new_location_even, new_location_odd;
    rewrite Hr; eauto.
Qed.

(** Halving a 54-digit quotient: the kept bit and the earlier location
    decide the rounding. *)
Lemma round_half_facts (p : positive) (l : location) :
  let l' := loc_of_shr_record (shr_1 (shr_record_of_loc (Z.pos p) l)) in
  let M := round_nearest_even (Z.pos p / 2) l' in
  (M = Z.pos p / 2 \/ M = Z.pos p / 2 + 1)
  /\ (l = loc_Exact -> Z.pos p mod 2 = 0 -> M = Z.pos p / 2)
  /\ ((exists c, l = loc_Inexact c) -> Z.pos p mod 2 = 1 -> M = Z.pos p / 2 + 1).
Proof.
  cbv zeta. split; [apply round_nearest_even_step|].
  destruct p as [p'|p'|].
  - change (Z.pos p'~1) with (2 * Z.pos p' + 1).
    replace ((2 * Z.pos p' + 1) mod 2) with 1
      by (rewrite Z.add_comm, Z.mul_comm, Z.mod_add by lia; reflexivity).
    split; [intros _ H; lia|].
    intros (c & ->) _. destruct c; reflexivity.
  - change (Z.pos p'~0) with (2 * Z.pos p').
    replace ((2 * Z.pos p') mod 2) with 0
      by (rewrite Z.mul_comm, Z.mod_mul by lia; reflexivity).
    split; [intros -> _; reflexivity | intros _ H; lia].
  - split; [intros -> H; discriminate H | intros (c & ->) _; destruct c; reflexivity].
Qed.

(** The integer ceiling [- ((- x) / y)] and its characterisation. *)
Lemma ceil_bounds (x y : Z) :
  0 < y -> y * (- ((- x) / y) - 1) < x <= y * - ((- x) / y).
Proof.
  intros Hy. pose proof (Z.div_mod (- x) y ltac:(lia)) as E.
  pose proof (Z.mod_pos_bound (- x) y Hy) as B.
  generalize dependent ((- x) mod y). generalize dependent ((- x) / y).
  intros t m E B. nia.
Qed.

Lemma ceil_unique (x y c : Z) :
  0 < y -> y * (c - 1) < x <= y * c -> - ((- x) / y) = c.
Proof.
  intros Hy Hc. pose proof (ceil_bounds x y Hy) as B.
  generalize dependent (- ((- x) / y)). intros c' B. nia.
Qed.

(** The quotient and remainder of the scaled division bracket [a * P]. *)
Lemma scaled_quotient (a b q r mb W P : Z) :
  0 < W -> 0 < P -> a * W = q * mb + r -> 0 <= r < mb -> mb * P = b * W ->
  q * b <= a * P < (q + 1) * b /\ (a * P = q * b <-> r = 0).
Proof.
  intros HW HP E Hr F.
  assert (E1 : a * W * P = q * (mb * P) + r * P) by (rewrite E; ring).
  rewrite F in E1.
  assert (G : (a * P - q * b) * W = r * P) by lia.
  assert (G' : r * P < b * W)
    by (rewrite <- F; apply Z.mul_lt_mono_pos_r; lia).
  assert (G'' : 0 <= r * P) by (apply Z.mul_nonneg_nonneg; lia).
  split; [split; nia|]. split; intros H.
  - assert (r * P = 0) by (rewrite <- G, H; ring). nia.
  - subst r. nia.
Qed.

(** The ceiling survives the rounding of the quotient, since the divisor
    is smaller than the scale [P] of the quotient's last digit. *)
Lemma ceil_of_rounded_53 (a b q P M C : Z) :
  0 < b < P ->
  q * b <= a * P < (q + 1) * b ->
  (M = q \/ M = q + 1) -> (a * P = q * b -> M = q) ->
  P * (C - 1) < M <= P * C ->
  b * (C - 1) < a <= b * C.
Proof.
  intros Hb K HM Hex HC. split.
  - assert (L1 : P * (C - 1) <= q) by lia.
    assert (L2 : b * (P * (C - 1)) <= q * b) by nia.
    assert (L3 : b * (C - 1) <= a) by nia.
    destruct (Z.eq_dec (b * (C - 1)) a) as [Heq|Hne]; [exfalso | lia].
    assert (L4 : a * P = q * b) by nia.
    specialize (Hex L4). subst M. nia.
  - destruct HM as [-> | ->].
    + assert (U1 : a * P < (P * C + 1) * b) by nia.
      assert (U2 : P * (a - C * b) < P) by nia.
      nia.
    + assert (U1 : a * P < P * C * b) by nia. nia.
Qed.

Lemma ceil_of_rounded_54 (a b q P' M C : Z) :
  0 < P' -> 0 < b < 2 * P' ->
  q * b <= a * (2 * P') < (q + 1) * b ->
  (M = q / 2 \/ M = q / 2 + 1) ->
  (a * (2 * P') = q * b -> q mod 2 = 0 -> M = q / 2) ->
  (a * (2 * P') <> q * b -> q mod 2 = 1 -> M = q / 2 + 1) ->
  P' * (C - 1) < M <= P' * C ->
  b * (C - 1) < a <= b * C.
Proof.
  intros HP Hb K HM R1 R2 HC.
  pose proof (Z.div_mod q 2 ltac:(lia)) as E.
  pose proof (Z.mod_pos_bound q 2 ltac:(lia)) as B.
  generalize dependent (q mod 2). generalize dependent (q / 2).
  intros q0 HM beta R1 R2 E B. split.
  - assert (L1 : P' * (C - 1) <= q0) by lia.
    assert (L2 : 2 * P' * (C - 1) <= q) by lia.
    assert (L3 : b * (2 * P' * (C - 1)) <= q * b) by nia.
    assert (L4 : b * (C - 1) <= a) by nia.
    destruct (Z.eq_dec (b * (C - 1)) a) as [Heq|Hne]; [exfalso | lia].
    assert (L5 : a * (2 * P') = q * b) by nia.
    assert (L6 : q = 2 * P' * (C - 1)) by nia.
    assert (L7 : beta = 0) by lia.
    specialize (R1 L5 L7). lia.
  - destruct HM as [HM | HM].
    + assert (Hc : beta = 0 \/ a * (2 * P') = q * b).
      { destruct (Z.eq_dec beta 0) as [?|Hb1]; [left; assumption|].
        destruct (Z.eq_dec (a * (2 * P')) (q * b)) as [?|Hne];
          [right; assumption|].
        assert (beta = 1) by lia. specialize (R2 Hne ltac:(assumption)). lia. }
      assert (U1 : a * (2 * P') <= (2 * (P' * C) + 1) * b).
      { destruct Hc as [Hc | Hc].
        - assert (q + 1 <= 2 * (P' * C) + 1) by lia. nia.
        - assert (q <= 2 * (P' * C) + 1) by lia. nia. }
      assert (U2 : (2 * P') * (a - C * b) < 2 * P') by nia.
      nia.
    + assert (U0 : q + 1 <= 2 * (P' * C)) by lia.
      assert (U1 : a * (2 * P') < 2 * (P' * C) * b) by nia. nia.
Qed.

(** Two 53-digit mantissas have a quotient of 53 or 54 digits. *)
Lemma mantissa_bounds (m : positive) :
  Z.pos (digits2_pos m) = 53 -> 2 ^ 52 <= Z.pos m < 2 ^ 53.
Proof.
  intros Hd. pose proof (digits2_pos_bounds m) as B. rewrite Hd in B.
  exact B.
Qed.

Lemma quotient_bounds (ma mb : Z) :
  2 ^ 52 <= ma < 2 ^ 53 -> 2 ^ 52 <= mb < 2 ^ 53 ->
  2 ^ 52 <= (ma * 2 ^ 53) / mb < 2 ^ 54.
Proof.
  replace (2 ^ 53) with (2 * 2 ^ 52) by reflexivity.
  replace (2 ^ 54) with (4 * 2 ^ 52) by reflexivity.
  assert (Ht : 0 < 2 ^ 52) by reflexivity.
  generalize dependent (2 ^ 52). intros t Ht Ha Hb. split.
  - apply Z.div_le_lower_bound; [lia | nia].
  - apply Z.div_lt_upper_bound; [lia | nia].
Qed.

(** On safe integers the double division followed by [Math.ceil] is the
    exact ceiling of the quotient. *)
Lemma Math_ceil_div_safe (a b : Z) :
  0 <= a < 2 ^ 53 -> 1 <= b < 2 ^ 53 ->
  Math_ceil_div a b = Finite (- ((- a) / b)).
Proof.
  intros Ha Hb. unfold Math_ceil_div.
  replace (b =? 0) with false by (symmetry; apply Z.eqb_neq; lia).
  destruct (double_of_Z_safe b Hb) as (mb & db & Eb & Hdb & Dmb & Vmb & Ub).
  destruct (Z.eq_dec a 0) as [-> | Hne].
  { rewrite Eb. change (double_of_Z 0) with (S754_zero false).
    replace (- (- 0 / b)) with 0
      by (change (- 0) with 0; rewrite Z.div_0_l by lia; reflexivity).
    reflexivity. }
  destruct (double_of_Z_safe a ltac:(lia)) as (ma & da & Ea & Hda & Dma & Vma & Ua).
  rewrite Ea, Eb, SFdiv_normal by (try assumption; lia).
  pose proof (mantissa_bounds ma Dma) as Bma.
  pose proof (mantissa_bounds mb Dmb) as Bmb.
  pose proof (quotient_bounds _ _ Bma Bmb) as Bq.
  pose proof (Z.div_mod (Z.pos ma * 2 ^ 53) (Z.pos mb) ltac:(lia)) as E.
  pose proof (Z.mod_pos_bound (Z.pos ma * 2 ^ 53) (Z.pos mb) ltac:(lia)) as Br.
  set (q := (Z.pos ma * 2 ^ 53) / Z.pos mb) in *.
  set (r := (Z.pos ma * 2 ^ 53) mod Z.pos mb) in *.
  set (W := 2 ^ (106 - da)).
  assert (HW : 0 < W) by (apply Z.pow_pos_nonneg; lia).
  assert (EW : a * W = q * Z.pos mb + r).
  { rewrite (Z.mul_comm q), <- E, Vma, <- Z.mul_assoc. f_equal.
    unfold W. rewrite <- Z.pow_add_r by lia. f_equal. lia. }
  assert (FW : forall g, g = 53 + db - da -> Z.pos mb * 2 ^ g = b * W).
  { intros g ->. rewrite Vmb, <- Z.mul_assoc. f_equal.
    unfold W. rewrite <- Z.pow_add_r by lia. f_equal. lia. }
  assert (Hbg : b < 2 ^ (53 + db - da)).
  { assert (2 ^ db <= 2 ^ (53 + db - da)) by (apply Z.pow_le_mono_r; lia).
    lia. }
  destruct q as [|pq|pq] eqn:Hq; try (exfalso; lia).
  rewrite <- Hq in *. f_equal.
  destruct (Z_lt_ge_dec q (2 ^ 53)) as [Hlt | Hge].
  - assert (Dq : Z.pos (digits2_pos pq) = 53)
      by (apply digits2_pos_unique; rewrite <- Hq; simpl Z.sub; lia).
    rewrite Hq at 1.
    rewrite round_ceil_53 by (try assumption; lia).
    rewrite <- Hq.
    replace (- (da - 53 - (db - 53) - 53)) with (53 + db - da) by lia.
    set (P := 2 ^ (53 + db - da)) in *.
    assert (HP : 0 < P) by (apply Z.pow_pos_nonneg; lia).
    destruct (scaled_quotient a b q r (Z.pos mb) W P HW HP EW Br
                (FW _ eq_refl)) as [K Kex].
    f_equal. symmetry. apply ceil_unique; [lia|].
    apply (ceil_of_rounded_53 a b q P
             (round_nearest_even q (new_location (Z.pos mb) r))).
    + lia.
    + exact K.
    + apply round_nearest_even_step.
    + intros H. apply Kex in H. rewrite H, new_location_zero. reflexivity.
    + apply ceil_bounds. exact HP.
  - assert (Dq : Z.pos (digits2_pos pq) = 54)
      by (apply digits2_pos_unique; rewrite <- Hq; simpl Z.sub; lia).
    rewrite Hq at 1.
    rewrite round_ceil_54 by (try assumption; lia).
    replace (- (da - 53 - (db - 53) - 53 + 1)) with (52 + db - da) by lia.
    set (P' := 2 ^ (52 + db - da)) in *.
    assert (HP' : 0 < P') by (apply Z.pow_pos_nonneg; lia).
    assert (EP : 2 ^ (53 + db - da) = 2 * P').
    { unfold P'. rewrite <- Z.pow_succ_r by lia. f_equal. lia. }
    rewrite EP in Hbg.
    assert (FW' : Z.pos mb * (2 * P') = b * W)
      by (rewrite <- EP; apply FW; reflexivity).
    destruct (scaled_quotient a b q r (Z.pos mb) W (2 * P') HW ltac:(lia) EW Br
                FW') as [K Kex].
    pose proof (round_half_facts pq (new_location (Z.pos mb) r)) as RH.
    cbv zeta in RH. rewrite <- Hq in RH. destruct RH as (RH0 & RH1 & RH2).
    f_equal. symmetry. apply ceil_unique; [lia|].
    rewrite <- Hq.
    eapply (ceil_of_rounded_54 a b q P').
    + exact HP'.
    + lia.
    + exact K.
    + exact RH0.
    + intros H. apply Kex in H. apply RH1. rewrite H. apply new_location_zero.
    + intros H. apply RH2. apply new_location_nonzero.
      intros Hr. apply H, Kex, Hr.
    + apply ceil_bounds. exact HP'.
Qed.

(** On safe integers the page count is the ceiling of the exact quotient:
    the only [n] with [limit * (n - 1) < total <= limit * n]. *)
Lemma Math_ceil_div_spec (a b : Z) :
  0 < b < 2 ^ 53 -> 0 <= a < 2 ^ 53 ->
  exists n, Math_ceil_div a b = Finite n /\ b * (n - 1) < a <= b * n.
Proof.
  intros Hb Ha. exists (- ((- a) / b)).
  split; [apply Math_ceil_div_safe; lia | apply ceil_bounds; lia].
Qed.

(** C4 (on safe integers): with [1 <= limit < 2^53] and
    [0 <= total < 2^53], [sendPaginated] answers 200 with a [meta] whose
    [totalPages] is the ceiling of [total / limit] (zero when [total] is
    zero) and whose [page], [limit] and [total] are the arguments;
    [totalPages] depends on [total] and [limit] alone. *)
Theorem sendPaginated_meta {T} (message : string) (data : list T)
    (page limit total : Z) :
  1 <= limit < 2 ^ 53 -> 0 <= total < 2 ^ 53 ->
  exists n,
    limit * (n - 1) < total <= limit * n
    /\ 0 <= n
    /\ (total = 0 -> n = 0)
    /\ sendPaginated message data
         {| pagination_page := page; pagination_limit := limit;
            pagination_total := total |}
       = {| Response.status := 200;
            body := [ ("success", MBool true); ("message", MString message);
                      ("data", MData data);
                      ("meta", MMeta {| Response.page := page;
                                        Response.limit := limit;
                                        Response.total := total;
                                        totalPages := Finite n |}) ] |}
    /\ (forall (message' : string) (data' : list T) (page' : Z),
          Js.own "meta"
            (body (sendPaginated message' data'
                     {| pagination_page := page'; pagination_limit := limit;
                        pagination_total := total |}))
          = Some (MMeta {| Response.page := page'; Response.limit := limit;
                           Response.total := total; totalPages := Finite n |})).
Proof.
  intros Hl Ht.
  destruct (Math_ceil_div_spec total limit ltac:(lia) Ht) as (n & Hn & Hb).
  destruct Hl as [Hl _]. destruct Ht as [Ht _].
  exists n. repeat split; try lia; try nia.
  - unfold sendPaginated, sendSuccess; simpl. now rewrite Hn.
  - intros m' d' p'. unfold sendPaginated, sendSuccess; simpl. now rewrite Hn.
Qed.

Lemma sendPaginated_meta_witness :
  exists n,
    10 * (n - 1) < 101 <= 10 * n
    /\ Js.own "meta"
         (body (sendPaginated "Users" ["ann"; "bob"]
                  {| pagination_page := 11; pagination_limit := 10;
                     pagination_total := 101 |}))
       = Some (MMeta {| Response.page := 11; Response.limit := 10;
                        Response.total := 101; totalPages := Finite n |}).
Proof.
  destruct (sendPaginated_meta "Users" ["ann"; "bob"] 11 10 101
              ltac:(lia) ltac:(lia)) as (n & Hb & _ & _ & _ & Hm).
  exists n. split; [exact Hb | exact (Hm "Users" ["ann"; "bob"] 11)].
Defined.

(** C4, the claim as written fails beyond the safe integers: with
    [limit = 3] and [total = 2^54] the quotient is rounded down to an
    integer before [Math.ceil] sees it, so [totalPages] is
    6004799503160661, one less than the ceiling, and that many pages of
    three hold fewer than [total] items. *)
Lemma sendPaginated_unsafe_total :
  let res :=
    sendPaginated "Users" ["ann"]
      {| pagination_page := 1; pagination_limit := 3;
         pagination_total := 2 ^ 54 |} in
  1 <= 3 /\ 0 <= 2 ^ 54
  /\ Js.own "meta" (body res)
     = Some (MMeta {| Response.page := 1; Response.limit := 3;
                      Response.total := 2 ^ 54;
                      totalPages := Finite 6004799503160661 |})
  /\ 3 * 6004799503160661 < 2 ^ 54.
Proof.
  cbv zeta. split; [discriminate|]. split; [discriminate|].
  split; [vm_compute; reflexivity | reflexivity].
Qed.

(** ** Validation step *)

Section OwnProperties.

Context {V : Type}.

Lemma own_None (key : string) (o : Js.Props V) :
  Js.own key o = None <-> key ∉ keys o.
Proof.
  induction o as [|[k v] o IH]; simpl.
  - split; [intros _; apply not_elem_of_nil | reflexivity].
  - rewrite not_elem_of_cons. destruct (decide (k = key)) as [->|Hne].
    + split; [discriminate | intros [H _]; now destruct H].
    + rewrite IH. split; [intros H; split; [congruence | exact H] | tauto].
Qed.

Lemma own_app (key k : string) (v : V) (o : Js.Props V) :
  Js.own key (o ++ [(k, v)]) =
    match Js.own key o with
    | Some x => Some x
    | None => if decide (k = key) then Some v else None
    end.
Proof.
  induction o as [|[k' v'] o IH]; simpl; [reflexivity|].
  destruct (decide (k' = key)); [reflexivity | exact IH].
Qed.

Lemma keys_app (k : string) (v : V) (o : Js.Props V) :
  keys (o ++ [(k, v)]) = keys o ++ [k].
Proof. unfold keys. now rewrite map_app. Qed.

End OwnProperties.

Lemma keys_push (key m : string) (o : FieldErrors) :
  keys (push key m o) = keys o.
Proof.
  unfold keys, push. rewrite map_map. apply map_ext.
  intros [k v]; simpl. now destruct (decide (k = key)).
Qed.

Lemma own_push (key m k : string) (o : FieldErrors) :
  Js.own k (push key m o) =
    if decide (k = key) then (fun msgs => msgs ++ [m]) <$> Js.own k o
    else Js.own k o.
Proof.
  induction o as [|[k' v'] o IH]; simpl.
  - now destruct (decide (k = key)).
  - destruct (decide (k' = key)) as [->|Hne]; simpl.
    + destruct (decide (key = k)) as [<-|Hk].
      * now rewrite decide_True.
      * rewrite IH. now rewrite decide_False by congruence.
    + destruct (decide (k' = k)) as [->|Hk'].
      * now rewrite decide_False by congruence.
      * exact IH.
Qed.

Lemma messages_for_snoc (key : string) (seen : list ValidationErrorItem)
    (d : ValidationErrorItem) :
  messages_for key (seen ++ [d]) =
    messages_for key seen
      ++ (if decide (detail_key d = key) then [detail_message d] else []).
Proof.
  unfold messages_for. rewrite filter_app, map_app. f_equal.
  rewrite filter_cons, filter_nil.
  now destruct (decide (detail_key d = key)).
Qed.

Lemma add_detail_files (errors : FieldErrors) (seen : list ValidationErrorItem)
    (d : ValidationErrorItem) :
  detail_key d ∉ Object_prototype_keys ->
  files errors seen ->
  exists errors', add_detail errors d = inr errors' /\ files errors' (seen ++ [d]).
Proof.
  intros Hplain [Hnd Hown]. unfold add_detail, Js.get.
  rewrite bool_decide_eq_false_2 by exact Hplain.
  destruct (Js.own (detail_key d) errors) as [msgs|] eqn:Hk.
  - eexists; split; [reflexivity|]. split.
    + now rewrite keys_push.
    + intros key. rewrite own_push, messages_for_snoc, Hown.
      destruct (decide (key = detail_key d)) as [->|Hne].
      * rewrite decide_True by reflexivity.
        rewrite Hown in Hk.
        destruct (messages_for (detail_key d) seen); [discriminate|reflexivity].
      * rewrite decide_False by congruence. now rewrite app_nil_r.
  - eexists; split; [reflexivity|]. split.
    + rewrite keys_push, keys_app. apply NoDup_app. repeat split.
      * exact Hnd.
      * intros k Hin Hin'. apply list_elem_of_singleton in Hin'. subst k.
        now apply own_None in Hk.
      * apply NoDup_singleton.
    + intros key. rewrite own_push, own_app, messages_for_snoc, Hown.
      destruct (decide (key = detail_key d)) as [->|Hne].
      * rewrite !decide_True by reflexivity.
        rewrite Hown in Hk.
        destruct (messages_for (detail_key d) seen); [reflexivity|discriminate].
      * rewrite !decide_False by congruence.
        rewrite app_nil_r. now destruct (messages_for key seen).
Qed.

Lemma forEach_files (details seen : list ValidationErrorItem) (errors : FieldErrors) :
  plain_keys details ->
  files errors seen ->
  exists errors', forEach details errors = inr errors'
                  /\ files errors' (seen ++ details).
Proof.
  revert seen errors.
  induction details as [|d details IH]; intros seen errors Hplain Hf; simpl.
  - exists errors. now rewrite app_nil_r.
  - apply Forall_cons in Hplain as [Hd Hrest].
    destruct (add_detail_files errors seen d Hd Hf) as (errors1 & -> & Hf1).
    destruct (IH (seen ++ [d]) errors1 Hrest Hf1) as (errors' & Hrun & Hf').
    exists errors'. split; [exact Hrun|]. now rewrite <- app_assoc in Hf'.
Qed.

(** The step answers only through [next]: it never writes a response. *)
Lemma validate_never_responds (schema : ObjectSchema)
    (target : option ValidationTarget) (req : Request) (res : HttpResponse unknown) :
  validate schema target req <> Respond res.
Proof.
  unfold validate.
  destruct (error _); [destruct (forEach _ _)|]; discriminate.
Qed.

(** X9: when no reported path spells a member of [Object.prototype], the
    step files every violation Joi reports: it signals a Validation error whose
    map has one key per dotted path, holding that path's messages in the
    order reported, and nothing else. *)
Theorem validate_collects_all (schema : ObjectSchema)
    (target : option ValidationTarget) (req : Request)
    (details : list ValidationErrorItem) :
  error (schema (read_target (default target_body target) req)
           {| abortEarly := false; stripUnknown := true |}) = Some details ->
  plain_keys details ->
  exists errors,
    validate schema target req
      = Signal (ValidationError (Some "Validation failed") (Some errors))
    /\ Js.errors (ValidationError (Some "Validation failed") (Some errors))
       = Some errors
    /\ NoDup (keys errors)
    /\ (forall d, d ∈ details ->
          exists msgs, Js.own (detail_key d) errors = Some msgs
                       /\ detail_message d ∈ msgs)
    /\ (forall key msgs, Js.own key errors = Some msgs ->
          msgs = messages_for key details /\ msgs <> []).
Proof.
  intros Herr Hplain.
  destruct (forEach_files details [] [] Hplain) as (errors & Hrun & Hnd & Hown).
  { split; [apply NoDup_nil_2 | reflexivity]. }
  simpl in Hown. exists errors. repeat split.
  - unfold validate. now rewrite Herr, Hrun.
  - exact Hnd.
  - intros d Hd. exists (messages_for (detail_key d) details).
    assert (Hin : detail_message d ∈ messages_for (detail_key d) details).
    { unfold messages_for. apply list_elem_of_fmap. exists d. split; [reflexivity|].
      apply list_elem_of_filter. now split. }
    split; [|exact Hin]. rewrite Hown.
    destruct (messages_for (detail_key d) details); [|reflexivity].
    now apply elem_of_nil in Hin.
  - rewrite Hown in H. destruct (messages_for key details); congruence.
  - rewrite Hown in H. destruct (messages_for key details); congruence.
Qed.

Lemma validate_collects_all_witness :
  exists errors,
    validate
      (fun _ _ =>
         {| error := Some [ {| detail_message := "Email is required";
                               detail_path := [Key "email"] |};
                            {| detail_message := "Password is too short";
                               detail_path := [Key "password"] |};
                            {| detail_message := "Email must be a string";
                               detail_path := [Key "email"] |} ];
            value := JNull |})
      None
      {| method := "POST"; path := "/users"; authorization := None;
         req_body := JObject []; req_query := JNull; req_params := JNull;
         user := None |}
    = Signal (ValidationError (Some "Validation failed") (Some errors))
    /\ Js.own "email" errors
       = Some ["Email is required"; "Email must be a string"].
Proof.
  edestruct (validate_collects_all
               (fun _ _ =>
                  {| error := Some [ {| detail_message := "Email is required";
                                        detail_path := [Key "email"] |};
                                     {| detail_message := "Password is too short";
                                        detail_path := [Key "password"] |};
                                     {| detail_message := "Email must be a string";
                                        detail_path := [Key "email"] |} ];
                     value := JNull |})
               None
               {| method := "POST"; path := "/users"; authorization := None;
                  req_body := JObject []; req_query := JNull; req_params := JNull;
                  user := None |})
    as (errors & Hv & _ & _ & _ & _).
  - reflexivity.
  - apply (bool_decide_unpack _). vm_compute. exact I.
  - exists errors. split; [exact Hv|].
    vm_compute in Hv. injection Hv as <-. reflexivity.
Defined.

(** On success the step replaces the request section by Joi's output. *)
Lemma validate_success (schema : ObjectSchema) (target : option ValidationTarget)
    (req : Request) :
  error (schema (read_target (default target_body target) req)
           {| abortEarly := false; stripUnknown := true |}) = None ->
  validate schema target req
    = Continue (write_target (default target_body target)
                  (value (schema (read_target (default target_body target) req)
                            {| abortEarly := false; stripUnknown := true |})) req).
Proof. intros H. unfold validate. now rewrite H. Qed.

(** Members of [Object.prototype] never become own keys, so a reported
    path that spells one of them always meets the inherited member: the
    loop throws, whatever was filed before. *)
Lemma add_detail_inl (errors : FieldErrors) (d : ValidationErrorItem) (exn : JsError) :
  add_detail errors d = inl exn ->
  exn = TypeError "errors[key].push is not a function".
Proof.
  unfold add_detail. destruct (Js.get errors (detail_key d)); congruence.
Qed.

Lemma add_detail_inherited (errors : FieldErrors) (d : ValidationErrorItem) :
  Forall (fun k => k ∉ Object_prototype_keys) (keys errors) ->
  detail_key d ∈ Object_prototype_keys ->
  add_detail errors d = inl (TypeError "errors[key].push is not a function").
Proof.
  intros Hclean Hin. unfold add_detail, Js.get.
  assert (Hown : Js.own (detail_key d) errors = None).
  { apply own_None. intros Hk.
    rewrite Forall_forall in Hclean. exact (Hclean _ Hk Hin). }
  rewrite Hown. now rewrite bool_decide_eq_true_2 by exact Hin.
Qed.

Lemma add_detail_clean (errors errors' : FieldErrors) (d : ValidationErrorItem) :
  Forall (fun k => k ∉ Object_prototype_keys) (keys errors) ->
  add_detail errors d = inr errors' ->
  Forall (fun k => k ∉ Object_prototype_keys) (keys errors').
Proof.
  intros Hclean. unfold add_detail, Js.get.
  destruct (Js.own (detail_key d) errors) as [msgs|] eqn:Hk.
  - intros [= <-]. now rewrite keys_push.
  - case_bool_decide as Hin; [discriminate|]. intros [= <-].
    rewrite keys_push, keys_app. apply Forall_app. split; [exact Hclean|].
    now apply Forall_singleton.
Qed.

Lemma forEach_inherited (details : list ValidationErrorItem) (errors : FieldErrors) :
  Forall (fun k => k ∉ Object_prototype_keys) (keys errors) ->
  Exists (fun d => detail_key d ∈ Object_prototype_keys) details ->
  forEach details errors = inl (TypeError "errors[key].push is not a function").
Proof.
  revert errors. induction details as [|d details IH]; intros errors Hclean Hex.
  - inversion Hex.
  - simpl. destruct (add_detail errors d) as [exn|errors'] eqn:Hadd.
    + now rewrite (add_detail_inl _ _ _ Hadd).
    + apply Exists_cons in Hex as [Hd|Hrest].
      * rewrite (add_detail_inherited errors d Hclean Hd) in Hadd. discriminate.
      * apply IH; [exact (add_detail_clean _ _ _ Hclean Hadd) | exact Hrest].
Qed.

(** Whenever a reported path spells a member of [Object.prototype], the
    step throws instead of signalling a Validation error. *)
Lemma validate_throws_on_inherited_key (schema : ObjectSchema)
    (target : option ValidationTarget) (req : Request)
    (details : list ValidationErrorItem) :
  error (schema (read_target (default target_body target) req)
           {| abortEarly := false; stripUnknown := true |}) = Some details ->
  Exists (fun d => detail_key d ∈ Object_prototype_keys) details ->
  validate schema target req
    = Throw (TypeError "errors[key].push is not a function").
Proof.
  intros Herr Hex. unfold validate. rewrite Herr.
  now rewrite (forEach_inherited details [] (Forall_nil_2 _) Hex).
Qed.

(** C5: two fields violate the schema at once, one of them named
    [constructor].  The read [errors['constructor']] finds the inherited
    member, no array is stored, and the call of the missing [push] throws:
    the step signals no Validation error, the second violation is never
    filed, and the error handler answers 500.  This holds whatever the two
    messages and the request are. *)
Theorem validate_inherited_key_throws (req : Request) (m1 m2 : string) :
  let details :=
    [ {| detail_message := m1; detail_path := [Key "constructor"] |};
      {| detail_message := m2; detail_path := [Key "season"] |} ] in
  let schema : ObjectSchema := fun _ _ => {| error := Some details; value := JNull |} in
  let exn := TypeError "errors[key].push is not a function" in
  Js.get ([] : FieldErrors) "constructor" = Inherited
  /\ validate schema None req = Throw exn
  /\ run_chain [validate schema None] req = Failed exn
  /\ respond (Config.config (Some "production")) exn
     = failure 500 "An unexpected error occurred"
  /\ respond (Config.config None) exn
     = failure 500 "errors[key].push is not a function".
Proof. repeat split. Qed.

(** ** Authentication and authorisation steps *)

Lemma includes_elem_of (allowedRoles : list string) (role : string) :
  includes allowedRoles role = true <-> role ∈ allowedRoles.
Proof.
  induction allowedRoles as [|r rest IH]; simpl.
  - split; [discriminate | intros H; now apply elem_of_nil in H].
  - rewrite elem_of_cons. destruct (decide (r = role)) as [->|Hne].
    + split; auto.
    + rewrite IH. split; [auto | intros [H|H]; [congruence | exact H]].
Qed.

Lemma UnauthorizedError_kind (m : option string) :
  is_unauthorized (UnauthorizedError m None)
  /\ statusCode (UnauthorizedError m None) = Some 401
  /\ ~ is_forbidden (UnauthorizedError m None).
Proof.
  split_and!; [split; reflexivity | reflexivity | intros [H|H]; discriminate].
Qed.

(** C8: whatever the roles and the request, [authorize] signals an error
    of the Unauthorized kind (status 401), not of the Forbidden kind, when
    the request carries no identity and when the identity's role is not
    among the allowed roles; when the role is among them it calls [next]
    with the request unchanged.  It never ends any other way. *)
Theorem authorize_outcomes (allowedRoles : list string) (req : Request) :
  (user req = None ->
     authorize allowedRoles req
       = Signal (UnauthorizedError (Some "User not authenticated") None))
  /\ (forall u, user req = Some u -> role u ∉ allowedRoles ->
     authorize allowedRoles req
       = Signal (UnauthorizedError (Some "Insufficient permissions") None))
  /\ (forall u, user req = Some u -> role u ∈ allowedRoles ->
     authorize allowedRoles req = Continue req)
  /\ (forall err, authorize allowedRoles req = Signal err ->
     is_unauthorized err /\ statusCode err = Some 401 /\ ~ is_forbidden err)
  /\ (forall exn, authorize allowedRoles req <> Throw exn)
  /\ (forall res, authorize allowedRoles req <> Respond res).
Proof.
  unfold authorize. destruct (user req) as [u|] eqn:Hu.
  - destruct (includes allowedRoles (role u)) eqn:Hin; simpl.
    + apply includes_elem_of in Hin.
      split_and!; intros; simplify_eq; try done.
    + assert (Hnot : role u ∉ allowedRoles).
      { intros H. apply includes_elem_of in H. congruence. }
      split_and!; intros; simplify_eq; try done; try apply UnauthorizedError_kind.
  - split_and!; intros; simplify_eq; try done; try apply UnauthorizedError_kind.
Qed.

Lemma authorize_outcomes_witness :
  authorize ["admin"; "editor"]
    {| method := "DELETE"; path := "/users/7";
       authorization := Some "Bearer abc"; req_body := JNull;
       req_query := JNull; req_params := JNull;
       user := Some {| id := "7"; email := "eve@example.org"; role := "viewer" |} |}
  = Signal (UnauthorizedError (Some "Insufficient permissions") None).
Proof.
  apply (authorize_outcomes ["admin"; "editor"] _) with
    (u := {| id := "7"; email := "eve@example.org"; role := "viewer" |}).
  - reflexivity.
  - apply (bool_decide_unpack _). vm_compute. exact I.
Defined.

(** [authenticate] hands on the request it received, or signals. *)
Lemma authenticate_keeps_request (req : Request) :
  authenticate req = Continue req
  \/ authenticate req = Signal (UnauthorizedError (Some "No token provided") None)
  \/ authenticate req = Signal (UnauthorizedError (Some "Invalid token") None).
Proof.
  unfold authenticate, authenticate_try.
  destruct (negb _ || negb _); [auto|].
  destruct (negb (truthy _)); auto.
Qed.






(** ** Health probe *)

Lemma disconnected_count_all (statuses : list DbStatus) :
  length (filter (fun s => s = disconnected) statuses) = length statuses
  <-> Forall (fun s => s = disconnected) statuses.
Proof.
  induction statuses as [|s statuses IH]; simpl.
  - split; [constructor | reflexivity].
  - rewrite filter_cons, Forall_cons.
    pose proof (length_filter (fun s => s = disconnected) statuses) as Hle.
    destruct (decide (s = disconnected)) as [Hs|Hs]; simpl.
    + rewrite <- IH. split; [intros [= H]; auto | intros [_ H]; now rewrite H].
    + split; [lia | tauto].
Qed.

Lemma disconnected_count_some (statuses : list DbStatus) :
  (0 < length (filter (fun s => s = disconnected) statuses))%nat
  <-> Exists (fun s => s = disconnected) statuses.
Proof.
  induction statuses as [|s statuses IH]; simpl.
  - split; [lia | intros H; inversion H].
  - rewrite filter_cons, Exists_cons.
    destruct (decide (s = disconnected)) as [Hs|Hs]; simpl.
    + split; [auto | lia].
    + rewrite IH. tauto.
Qed.

(** [determineOverallStatus] on any list of dependency statuses.  The
    empty list counts as all disconnected. *)
Lemma determineOverallStatus_spec (statuses : list DbStatus) :
  (Forall (fun s => s = disconnected) statuses ->
     determineOverallStatus statuses = unhealthy)
  /\ (Exists (fun s => s = disconnected) statuses ->
      ~ Forall (fun s => s = disconnected) statuses ->
     determineOverallStatus statuses = degraded)
  /\ (statuses <> [] -> ~ Exists (fun s => s = disconnected) statuses ->
     determineOverallStatus statuses = healthy).
Proof.
  unfold determineOverallStatus.
  pose proof (disconnected_count_all statuses) as Hall.
  pose proof (disconnected_count_some statuses) as Hsome.
  split_and!.
  - intros H. now rewrite decide_True by (apply Hall, H).
  - intros He Hn. rewrite decide_False by (rewrite Hall; exact Hn).
    now rewrite decide_True by (apply Hsome, He).
  - intros Hne Hn. rewrite decide_False.
    + now rewrite decide_False by (rewrite Hsome; exact Hn).
    + intros H. apply Hall in H. destruct statuses as [|s rest]; [congruence|].
      apply Hn. apply Exists_cons. left. now apply Forall_cons in H.
Qed.

(** A degraded verdict needs a disconnected and a connected dependency. *)
Lemma degraded_needs_two (statuses : list DbStatus) :
  determineOverallStatus statuses = degraded -> (2 <= length statuses)%nat.
Proof.
  destruct statuses as [|a [|b rest]]; simpl; try lia.
  - discriminate.
  - destruct a; discriminate.
Qed.

Lemma checkDatabase_status (p : Probe) :
  (ping_succeeds p -> db_status (checkDatabase p) = connected)
  /\ (~ ping_succeeds p -> db_status (checkDatabase p) = disconnected).
Proof.
  unfold ping_succeeds, checkDatabase. destruct (ping p); split; intros H;
    try reflexivity; try (destruct H as (? & ? & ?); discriminate).
  destruct H. eauto.
Qed.

Section Probe.

Variable Math_round_percent : Z -> Z -> Z.

(** C6: the overall status of [getDetailedHealth] follows its dependency
    statuses: all disconnected gives unhealthy, some but not all gives
    degraded, none gives healthy; [GET /health/detailed] answers 200 when
    the status is healthy and 503 otherwise, and the database entry of
    the payload reads connected when the ping succeeds and disconnected
    when it fails. *)
Theorem detailed_health (p : Probe) :
  let health := getDetailedHealth Math_round_percent p in
  let statuses := [db_status (database (dependencies health))] in
  Health.status health = determineOverallStatus statuses
  /\ (Forall (fun s => s = disconnected) statuses ->
      Health.status health = unhealthy)
  /\ (Exists (fun s => s = disconnected) statuses ->
      ~ Forall (fun s => s = disconnected) statuses ->
      Health.status health = degraded)
  /\ (~ Exists (fun s => s = disconnected) statuses ->
      Health.status health = healthy)
  /\ (forall several : list DbStatus, several <> [] ->
      (Forall (fun s => s = disconnected) several ->
         determineOverallStatus several = unhealthy)
      /\ (Exists (fun s => s = disconnected) several ->
          ~ Forall (fun s => s = disconnected) several ->
         determineOverallStatus several = degraded)
      /\ (~ Exists (fun s => s = disconnected) several ->
         determineOverallStatus several = healthy))
  /\ Js.own "data" (body (detailed Math_round_percent p)) = Some (MData health)
  /\ (Health.status health = healthy ->
      Response.status (detailed Math_round_percent p) = 200)
  /\ (Health.status health <> healthy ->
      Response.status (detailed Math_round_percent p) = 503)
  /\ (ping_succeeds p ->
      db_status (database (dependencies health)) = connected
      /\ Response.status (detailed Math_round_percent p) = 200)
  /\ (~ ping_succeeds p ->
      db_status (database (dependencies health)) = disconnected
      /\ Response.status (detailed Math_round_percent p) = 503).
Proof.
  cbv zeta.
  destruct (determineOverallStatus_spec
              [db_status (database (dependencies
                                      (getDetailedHealth Math_round_percent p)))])
    as (Hall & Hsome & Hnone).
  destruct (checkDatabase_status p) as (Hok & Hfail).
  split_and!; try reflexivity.
  - exact Hall.
  - exact Hsome.
  - apply Hnone. discriminate.
  - intros several Hne.
    destruct (determineOverallStatus_spec several) as (H1 & H2 & H3).
    split_and!; auto.
  - intros H. unfold Health.detailed; simpl. now rewrite decide_True by exact H.
  - intros H. unfold Health.detailed; simpl. now rewrite decide_False by exact H.
  - intros H. specialize (Hok H). split; [exact Hok|].
    unfold Health.detailed, Health.getDetailedHealth; simpl. now rewrite Hok.
  - intros H. specialize (Hfail H). split; [exact Hfail|].
    unfold Health.detailed, Health.getDetailedHealth; simpl. now rewrite Hfail.
Qed.

(** C9: [getDetailedHealth] hands [determineOverallStatus] a list of one
    element, the database status, so its verdict is never degraded: it is
    healthy when the database is connected and unhealthy when it is not. *)
Theorem detailed_health_never_degraded (p : Probe) :
  let health := getDetailedHealth Math_round_percent p in
  Health.status health = determineOverallStatus [db_status (checkDatabase p)]
  /\ length [db_status (checkDatabase p)] = 1%nat
  /\ Health.status health <> degraded
  /\ Health.status health =
       match db_status (database (dependencies health)) with
       | connected => healthy
       | disconnected => unhealthy
       end.
Proof.
  cbv zeta. unfold Health.getDetailedHealth; simpl.
  destruct (db_status (checkDatabase p)); split_and!; try reflexivity; discriminate.
Qed.

End Probe.

Lemma detailed_health_witness :
  Response.status
    (Health.detailed (fun used total => 100 * used / total)
       {| now_iso := "2024-01-01T00:00:00.000Z"; process_uptime := 12 # 1;
          npm_package_version := None; ping := QueryRejected;
          heapUsed := 30; heapTotal := 60 |}) = 503.
Proof.
  refine (proj2 (proj2 (proj2 (proj2 (proj2 (proj2 (proj2 (proj2 (proj2 (proj2
            (detailed_health (fun used total => 100 * used / total)
               {| now_iso := "2024-01-01T00:00:00.000Z"; process_uptime := 12 # 1;
                  npm_package_version := None; ping := QueryRejected;
                  heapUsed := 30; heapTotal := 60 |}))))))))) _)).
  intros (start & finish & H). discriminate.
Defined.

(** * Further properties *)

(** ** Response envelope builders *)

(** X1: a success envelope has [success = true] and the message, carries
    [data] and [meta] exactly when they are supplied, and never [errors];
    a failure envelope has [success = false] and the message, carries
    [errors] exactly when a map is supplied (an empty map included), and
    never [data] or [meta].  The status is the one given, 200 respectively
    500 when none is given, and no key occurs twice. *)
Theorem envelope_shapes {T} (m : string) (sc : option Z) :
  (forall (d : option T) (meta : option Meta),
     let res := sendSuccess m d sc meta in
     Response.status res = default 200 sc
     /\ Js.own "success" (body res) = Some (MBool true)
     /\ Js.own "message" (body res) = Some (MString m)
     /\ Js.own "data" (body res) = MData <$> d
     /\ Js.own "meta" (body res) = MMeta <$> meta
     /\ Js.own "errors" (body res) = None
     /\ NoDup (keys (body res)))
  /\ (forall e : option FieldErrors,
     let res := sendError (T:=T) m sc e in
     Response.status res = default 500 sc
     /\ Js.own "success" (body res) = Some (MBool false)
     /\ Js.own "message" (body res) = Some (MString m)
     /\ Js.own "errors" (body res) = MErrors <$> e
     /\ Js.own "data" (body res) = None
     /\ Js.own "meta" (body res) = None
     /\ NoDup (keys (body res))).
Proof.
  split.
  - intros [d|] [meta|]; cbv zeta; split_and!; try reflexivity;
      apply (bool_decide_unpack _); vm_compute; exact I.
  - intros [e|]; cbv zeta; split_and!; try reflexivity;
      apply (bool_decide_unpack _); vm_compute; exact I.
Qed.

(** ** Error handler, further *)

(** X3: every taxonomy error other than the Validation kind, and a bare
    [AppError], is answered with its own status and message and nothing
    else, in every environment: production hides no message of the
    taxonomy, not even that of the non-operational [InternalServerError]. *)
Theorem taxonomy_error_response (cfg : Config.Config) (m c : option string) :
  respond cfg (BadRequestError m c) = failure 400 (default "Bad Request" m)
  /\ respond cfg (UnauthorizedError m c) = failure 401 (default "Unauthorized" m)
  /\ respond cfg (ForbiddenError m c) = failure 403 (default "Forbidden" m)
  /\ respond cfg (NotFoundError m c) = failure 404 (default "Not Found" m)
  /\ respond cfg (ConflictError m c) = failure 409 (default "Conflict" m)
  /\ respond cfg (TooManyRequestsError m c)
     = failure 429 (default "Too Many Requests" m)
  /\ respond cfg (InternalServerError m c)
     = failure 500 (default "Internal Server Error" m)
  /\ (forall (text : string) (sc : option Z) (op : option bool),
        respond cfg (AppError text sc c op) = failure (default 500 sc) text).
Proof. split_and!; reflexivity. Qed.

(** X4: the response depends on the prototype chain, the name, the
    message, the status, the field-error map and the [body] member of the
    error, and on nothing else: [code] and [isOperational] never change
    it.  The log entry records the error's own message and name in every
    environment. *)
Theorem errorHandler_reads (cfg cfg' : Config.Config) (err err' : JsError) :
  same_to_handler err err' ->
  respond cfg err = respond cfg err'
  /\ fst (errorHandler cfg err) = fst (errorHandler cfg' err')
  /\ log_message (fst (errorHandler cfg err)) = message err
  /\ log_name (fst (errorHandler cfg err)) = name err.
Proof.
  intros (Hp & Hn & Hm & Hs & He & Hb).
  unfold respond, errorHandler, instanceof; simpl.
  now rewrite Hp, Hn, Hm, Hs, He, Hb.
Qed.

Lemma errorHandler_reads_witness :
  respond (Config.config (Some "production"))
    (InternalServerError (Some "pool exhausted") None)
  = respond (Config.config (Some "production"))
      (AppError "pool exhausted" (Some 500) (Some "E_POOL") (Some true)).
Proof.
  refine (proj1 (errorHandler_reads _ (Config.config None) _ _ _)).
  repeat split.
Defined.

(** X5: an error outside the taxonomy is answered with status 400 or 500
    and a body of exactly [success] and [message]; in production the
    message is one of four fixed texts, so nothing of the error's own
    message reaches the client. *)
Theorem foreign_error_response (NODE_ENV : option string) (err : JsError) :
  instanceof err AppError_prototype = false ->
  let res := respond (Config.config NODE_ENV) err in
  (Response.status res = 400 \/ Response.status res = 500)
  /\ keys (body res) = ["success"; "message"]
  /\ (NODE_ENV = Some "production" ->
      exists text, text ∈ fixed_messages
                   /\ res = failure (Response.status res) text).
Proof.
  intros Ha. cbv zeta.
  destruct (errorHandler_cases err)
    as [H|[[_ H]|[[_ H]|[(_ & Hk & Hv & Hs & Hb)|H]]]].
  - congruence.
  - rewrite (errorHandler_known_request _ err Ha H).
    split_and!; [now left | reflexivity |].
    intros _. exists "Database operation failed". split; [|reflexivity].
    apply (bool_decide_unpack _). vm_compute. exact I.
  - rewrite (errorHandler_db_validation _ err Ha H).
    split_and!; [now left | reflexivity |].
    intros _. exists "Invalid data provided". split; [|reflexivity].
    apply (bool_decide_unpack _). vm_compute. exact I.
  - rewrite (errorHandler_body_parse _ err Ha Hk Hv Hs Hb).
    split_and!; [now left | reflexivity |].
    intros _. exists "Invalid JSON payload". split; [|reflexivity].
    apply (bool_decide_unpack _). vm_compute. exact I.
  - rewrite (errorHandler_unknown _ err H).
    split_and!; [now right | reflexivity |].
    intros ->. exists "An unexpected error occurred". split; [|reflexivity].
    apply (bool_decide_unpack _). vm_compute. exact I.
Qed.

Lemma foreign_error_response_witness :
  exists text,
    text ∈ fixed_messages
    /\ respond (Config.config (Some "production"))
         {| proto := Foreign_prototype "PrismaClientKnownRequestError";
            name := "PrismaClientKnownRequestError";
            message := "Unique constraint failed on the fields: (email)";
            statusCode := None; code := Some "P2002"; isOperational := None;
            errors := None; has_body := false |}
       = failure 400 text.
Proof.
  destruct (foreign_error_response (Some "production")
              {| proto := Foreign_prototype "PrismaClientKnownRequestError";
                 name := "PrismaClientKnownRequestError";
                 message := "Unique constraint failed on the fields: (email)";
                 statusCode := None; code := Some "P2002"; isOperational := None;
                 errors := None; has_body := false |} eq_refl)
    as (_ & _ & H).
  destruct (H eq_refl) as (text & Hin & Heq).
  exists text. split; [exact Hin | exact Heq].
Defined.

(** X6: [notFoundHandler] answers exactly as the error handler answers a
    [NotFoundError] that carries the route message [Route <method> <path>
    not found]: status 404, [success = false], that message, no [errors]. *)
Theorem notFoundHandler_as_NotFoundError (cfg : Config.Config) (req : Request)
    (c : option string) :
  notFoundHandler req = respond cfg (NotFoundError (Some (route_message req)) c)
  /\ notFoundHandler req = failure 404 (route_message req).
Proof. split; reflexivity. Qed.

(** ** Authentication and authorisation, further *)

Lemma prefix_append (p s : string) :
  String.prefix p s = true <-> exists t, s = p +:+ t.
Proof.
  revert s. induction p as [|a p IH]; intros [|b s]; simpl.
  - split; [intros _; now exists "" | reflexivity].
  - split; [intros _; now exists (String b s) | reflexivity].
  - split; [discriminate | intros (t & H); discriminate].
  - destruct (ascii_dec a b) as [->|Hne].
    + rewrite IH. split; intros (t & H); exists t; [now rewrite H | now injection H].
    + split; [discriminate | intros (t & H); injection H; congruence].
Qed.

Lemma split_head (sep : ascii) (s : string) :
  exists piece pieces, split sep s = piece :: pieces.
Proof.
  destruct s as [|c s]; simpl; [eauto|].
  destruct (Ascii.eqb c sep); [eauto|].
  destruct (split sep s); eauto.
Qed.

Lemma split_Bearer (t : string) :
  split " " ("Bearer " +:+ t) = "Bearer" :: split " " t.
Proof.
  destruct (split_head " " t) as (piece & pieces & H).
  cbv [String.append]. simpl. now rewrite H.
Qed.

(** The three ways [authenticate] ends, by the header alone. *)
Lemma authenticate_by_header (req : Request) :
  match authorization req with
  | None =>
      authenticate req = Signal (UnauthorizedError (Some "No token provided") None)
  | Some h =>
      if String.prefix "Bearer " h then
        match substring 7 1 h with
        | "" | " " =>
            authenticate req
              = Signal (UnauthorizedError (Some "Invalid token") None)
        | _ => authenticate req = Continue req
        end
      else
        authenticate req
          = Signal (UnauthorizedError (Some "No token provided") None)
  end.
Proof.
  unfold authenticate, authenticate_try.
  destruct (authorization req) as [h|]; [|reflexivity].
  unfold startsWith. simpl default.
  destruct (String.prefix "Bearer " h) eqn:Hp.
  - apply prefix_append in Hp as (t & ->).
    assert (Ht : truthy (Some ("Bearer " +:+ t)) = true) by reflexivity.
    rewrite Ht, split_Bearer. simpl negb. simpl orb. cbv iota.
    change (substring 7 1 ("Bearer " +:+ t)) with (substring 0 1 t).
    destruct t as [|c t]; [reflexivity|].
    simpl split. destruct (Ascii.eqb c " ") eqn:Hc.
    + apply Ascii.eqb_eq in Hc as ->. destruct t; reflexivity.
    + destruct (split " " t) as [|piece pieces] eqn:Hs;
        [destruct (split_head " " t) as (? & ? & ?); congruence|].
      assert (Hsub : substring 0 1 (String c t) = String c "")
        by (simpl; now destruct t).
      rewrite Hsub.
      destruct c as [[] [] [] [] [] [] [] []]; try reflexivity; discriminate.
  - destruct (negb (truthy (Some h))); reflexivity.
Qed.

(** X7: [authenticate] lets a request through exactly when its
    [Authorization] header is [Bearer ] followed by a token whose first
    character is not a space; any such token is accepted unverified.  The
    request goes on unchanged.  [Bearer ] followed by nothing or by a
    space is rejected with [Invalid token]; a missing header, or one that
    does not start with [Bearer ], with [No token provided]. *)
Theorem authenticate_characterisation (req : Request) :
  (authenticate req = Continue req
   <-> exists c rest, authorization req = Some ("Bearer " +:+ String c rest)
                      /\ c <> " "%char)
  /\ (forall req', authenticate req = Continue req' -> req' = req)
  /\ (authenticate req = Signal (UnauthorizedError (Some "Invalid token") None)
      <-> authorization req = Some "Bearer "
          \/ exists rest, authorization req = Some ("Bearer  " +:+ rest))
  /\ (authenticate req = Signal (UnauthorizedError (Some "No token provided") None)
      <-> authorization req = None
          \/ exists h, authorization req = Some h
                       /\ String.prefix "Bearer " h = false).
Proof.
  pose proof (authenticate_by_header req) as H.
  destruct (authorization req) as [h|] eqn:Hh.
  - destruct (String.prefix "Bearer " h) eqn:Hp.
    + apply prefix_append in Hp as Ht. destruct Ht as (t & ->).
      change (substring 7 1 ("Bearer " +:+ t)) with (substring 0 1 t) in H.
      destruct t as [|c t].
      * simpl in H. rewrite H. split_and!.
        -- split; [discriminate | intros (c & rest & [= ] & _)].
        -- discriminate.
        -- split; [now left | reflexivity].
        -- split; [discriminate | intros [?|(h' & [= <-] & ?)]; discriminate].
      * assert (Hsub : substring 0 1 (String c t) = String c "")
          by (simpl; now destruct t).
        rewrite Hsub in H.
        destruct (decide (c = " "%char)) as [->|Hc].
        -- rewrite H. split_and!.
           ++ split; [discriminate | intros (c & rest & [= <- _] & Hne); congruence].
           ++ discriminate.
           ++ split; [intros _; right; now exists t | reflexivity].
           ++ split; [discriminate | intros [?|(h' & [= <-] & ?)]; discriminate].
        -- assert (Hacc : authenticate req = Continue req).
           { destruct c as [[] [] [] [] [] [] [] []]; try exact H; congruence. }
           rewrite Hacc. split_and!.
           ++ split; [intros _; now exists c, t | reflexivity].
           ++ now intros req' [= <-].
           ++ split; [discriminate | intros [[= ]|(rest & [= -> _])]; congruence].
           ++ split; [discriminate | intros [?|(h' & [= <-] & ?)]; discriminate].
    + rewrite H. split_and!.
      * split; [discriminate | intros (c & rest & [= ->] & _); discriminate].
      * discriminate.
      * split; [discriminate | intros [[= ->]|(rest & [= ->])]; discriminate].
      * split; [intros _; right; now exists h | reflexivity].
  - rewrite H. split_and!.
    + split; [discriminate | intros (c & rest & ? & _); discriminate].
    + discriminate.
    + split; [discriminate | intros [?|(rest & ?)]; discriminate].
    + split; [now left | reflexivity].
Qed.

(** X8: [authenticate] followed by [authorize]: the request reaches the
    handler, unchanged, exactly when the header is accepted and the
    attached identity has one of the allowed roles; in every other case
    the chain fails with an Unauthorized error whose message is one of
    four, and the error handler answers 401 with that message in every
    environment. *)
Theorem auth_chain_outcomes (cfg : Config.Config) (allowedRoles : list string)
    (req : Request) :
  (run_chain [authenticate; authorize allowedRoles] req = Reached req
   <-> authenticate req = Continue req
       /\ exists u, user req = Some u /\ role u ∈ allowedRoles)
  /\ (run_chain [authenticate; authorize allowedRoles] req = Reached req
      \/ exists text,
           text ∈ auth_messages
           /\ run_chain [authenticate; authorize allowedRoles] req
              = Failed (UnauthorizedError (Some text) None)
           /\ respond cfg (UnauthorizedError (Some text) None) = failure 401 text).
Proof.
  assert (Hmsg : forall text, text ∈ auth_messages ->
            forall o, o = Failed (UnauthorizedError (Some text) None) ->
            exists text, text ∈ auth_messages
              /\ o = Failed (UnauthorizedError (Some text) None)
              /\ respond cfg (UnauthorizedError (Some text) None) = failure 401 text).
  { intros text Hin o ->. exists text. split_and!; [exact Hin|reflexivity|reflexivity]. }
  assert (In1 : "No token provided" ∈ auth_messages)
    by (apply (bool_decide_unpack _); vm_compute; exact I).
  assert (In2 : "Invalid token" ∈ auth_messages)
    by (apply (bool_decide_unpack _); vm_compute; exact I).
  assert (In3 : "User not authenticated" ∈ auth_messages)
    by (apply (bool_decide_unpack _); vm_compute; exact I).
  assert (In4 : "Insufficient permissions" ∈ auth_messages)
    by (apply (bool_decide_unpack _); vm_compute; exact I).
  simpl run_chain.
  destruct (authenticate_keeps_request req) as [H|[H|H]]; rewrite H.
  - unfold authorize. destruct (user req) as [u|] eqn:Hu.
    + destruct (includes allowedRoles (role u)) eqn:Hin; simpl.
      * apply includes_elem_of in Hin. split; [|now left].
        split; [intros _; split; [reflexivity | now exists u] | reflexivity].
      * split.
        -- split; [discriminate|]. intros (_ & u' & [= <-] & Hr).
           apply includes_elem_of in Hr. congruence.
        -- right. now apply (Hmsg _ In4).
    + split.
      * split; [discriminate | intros (_ & u & ? & _); discriminate].
      * right. now apply (Hmsg _ In3).
  - split; [split; [discriminate | intros (? & _); discriminate]|].
    right. now apply (Hmsg _ In1).
  - split; [split; [discriminate | intros (? & _); discriminate]|].
    right. now apply (Hmsg _ In2).
Qed.

(** ** Validation step, further *)

Lemma push_absent (key m : string) (errors : FieldErrors) :
  key ∉ keys errors -> push key m errors = errors.
Proof.
  induction errors as [|[k v] errors IH]; simpl; [reflexivity|].
  rewrite not_elem_of_cons. intros [Hne Hrest].
  rewrite decide_False by congruence. now rewrite IH.
Qed.

Lemma count_messages_app (errors errors' : FieldErrors) :
  count_messages (errors ++ errors')
  = (count_messages errors + count_messages errors')%nat.
Proof. unfold count_messages. apply sum_list_with_app. Qed.

Lemma count_messages_push (key m : string) (errors : FieldErrors) :
  NoDup (keys errors) -> key ∈ keys errors ->
  count_messages (push key m errors) = S (count_messages errors).
Proof.
  induction errors as [|[k v] errors IH]; simpl.
  - intros _ H. now apply elem_of_nil in H.
  - intros Hnd Hin. apply NoDup_cons in Hnd as [Hk Hnd].
    unfold count_messages in *. simpl.
    destruct (decide (k = key)) as [->|Hne]; simpl.
    + fold (push key m errors). rewrite (push_absent key m errors Hk).
      rewrite length_app. simpl. lia.
    + apply elem_of_cons in Hin as [Heq|Hin]; [congruence|].
      fold (push key m errors). rewrite (IH Hnd Hin). lia.
Qed.

Lemma add_detail_count (errors errors' : FieldErrors) (d : ValidationErrorItem) :
  NoDup (keys errors) ->
  add_detail errors d = inr errors' ->
  count_messages errors' = S (count_messages errors)
  /\ forall k, k ∈ keys errors' -> k ∈ keys errors \/ k = detail_key d.
Proof.
  intros Hnd. unfold add_detail, Js.get.
  destruct (Js.own (detail_key d) errors) as [msgs|] eqn:Hk.
  - intros [= <-]. split.
    + apply count_messages_push; [exact Hnd|].
      destruct (decide (detail_key d ∈ keys errors)) as [H|H]; [exact H|].
      apply own_None in H. congruence.
    + intros k. rewrite keys_push. auto.
  - case_bool_decide; [discriminate|]. intros [= <-]. split.
    + rewrite count_messages_push.
      * rewrite count_messages_app. unfold count_messages at 2. simpl. lia.
      * rewrite keys_app. apply NoDup_app. split_and!; [exact Hnd| |apply NoDup_singleton].
        intros k Hin Hin'. apply list_elem_of_singleton in Hin'. subst k.
        now apply own_None in Hk.
      * rewrite keys_app, elem_of_app, list_elem_of_singleton. now right.
    + intros k. rewrite keys_push, keys_app, elem_of_app, list_elem_of_singleton. auto.
Qed.

Lemma forEach_count (details seen : list ValidationErrorItem)
    (errors errors' : FieldErrors) :
  plain_keys details -> files errors seen ->
  forEach details errors = inr errors' ->
  count_messages errors' = (count_messages errors + length details)%nat
  /\ forall k, k ∈ keys errors' ->
       k ∈ keys errors \/ k ∈ map detail_key details.
Proof.
  revert seen errors.
  induction details as [|d details IH]; intros seen errors Hplain Hf; simpl.
  - intros [= <-]. split; [lia | auto].
  - apply Forall_cons in Hplain as [Hd Hrest].
    destruct (add_detail_files errors seen d Hd Hf) as (errors1 & Hadd & Hf1).
    rewrite Hadd. intros Hrun.
    destruct (add_detail_count errors errors1 d (proj1 Hf) Hadd) as (Hc1 & Hk1).
    destruct (IH (seen ++ [d]) errors1 Hrest Hf1 Hrun) as (Hc & Hk).
    split; [lia|]. intros k Hin. rewrite elem_of_cons.
    destruct (Hk k Hin) as [H|H]; [|auto].
    destruct (Hk1 k H); auto.
Qed.

(** X10: when no reported path spells a member of [Object.prototype], no
    violation is lost or filed twice: the map of the signalled Validation
    error holds as many messages as Joi reported violations, every key is
    the dotted path of a reported violation, and every key holds at least
    one message. *)
Theorem validate_conserves_messages (schema : ObjectSchema)
    (target : option ValidationTarget) (req : Request)
    (details : list ValidationErrorItem) :
  error (schema (read_target (default target_body target) req)
           {| abortEarly := false; stripUnknown := true |}) = Some details ->
  plain_keys details ->
  exists errors,
    validate schema target req
      = Signal (ValidationError (Some "Validation failed") (Some errors))
    /\ count_messages errors = length details
    /\ (forall k, k ∈ keys errors -> k ∈ map detail_key details)
    /\ (length (keys errors) <= length details)%nat
    /\ Forall (fun kv => snd kv <> []) errors.
Proof.
  intros Herr Hplain.
  assert (Hf0 : files [] []) by (split; [apply NoDup_nil_2 | reflexivity]).
  destruct (forEach_files details [] [] Hplain Hf0) as (errors & Hrun & Hnd & Hown).
  destruct (forEach_count details [] [] errors Hplain Hf0 Hrun) as (Hc & Hk).
  change (count_messages []) with O in Hc. rewrite Nat.add_0_l in Hc.
  assert (Hne : Forall (fun kv => snd kv <> []) errors).
  { apply Forall_forall. intros [k v] Hin. simpl. intros ->.
    assert (Hown' : Js.own k errors = Some []).
    { clear - Hnd Hin. induction errors as [|[k' v'] errors IH]; simpl.
      - now apply elem_of_nil in Hin.
      - apply NoDup_cons in Hnd as [Hk' Hnd].
        apply elem_of_cons in Hin as [[= <- <-]|Hin].
        + now rewrite decide_True.
        + rewrite decide_False; [now apply IH|].
          intros ->. apply Hk'. apply list_elem_of_fmap. now exists (k, []). }
    rewrite Hown in Hown'. simpl in Hown'.
    destruct (messages_for k details); discriminate. }
  exists errors. split_and!.
  - unfold validate. now rewrite Herr, Hrun.
  - exact Hc.
  - intros k Hin. destruct (Hk k Hin) as [H|H]; [now apply elem_of_nil in H | exact H].
  - unfold keys. rewrite length_map.
    assert (Hle : (length errors <= count_messages errors)%nat).
    { clear - Hne. unfold count_messages.
      induction errors as [|[k v] errors IH]; simpl; [lia|].
      apply Forall_cons in Hne as [Hv Hrest]. specialize (IH Hrest).
      simpl in Hv. destruct v; [congruence | simpl; lia]. }
    lia.
  - exact Hne.
Qed.

Lemma validate_conserves_messages_witness :
  exists errors,
    validate
      (fun _ _ =>
         {| error := Some [ {| detail_message := "Name is required";
                               detail_path := [Key "name"] |};
                            {| detail_message := "Price must be positive";
                               detail_path := [Key "items"; Index 0; Key "price"] |} ];
            value := JNull |})
      (Some target_body)
      {| method := "POST"; path := "/orders"; authorization := None;
         req_body := JObject []; req_query := JNull; req_params := JNull;
         user := None |}
    = Signal (ValidationError (Some "Validation failed") (Some errors))
    /\ count_messages errors = 2%nat.
Proof.
  edestruct (validate_conserves_messages
               (fun _ _ =>
                  {| error := Some [ {| detail_message := "Name is required";
                                        detail_path := [Key "name"] |};
                                     {| detail_message := "Price must be positive";
                                        detail_path :=
                                          [Key "items"; Index 0; Key "price"] |} ];
                     value := JNull |})
               (Some target_body)
               {| method := "POST"; path := "/orders"; authorization := None;
                  req_body := JObject []; req_query := JNull; req_params := JNull;
                  user := None |})
    as (errors & Hv & Hc & _).
  - reflexivity.
  - apply (bool_decide_unpack _). vm_compute. exact I.
  - exists errors. split; [exact Hv | exact Hc].
Defined.

Lemma read_write_target (t t' : ValidationTarget) (v : json) (req : Request) :
  read_target t' (write_target t v req)
  = if decide (t = t') then v else read_target t' req.
Proof. destruct t, t'; reflexivity. Qed.

Lemma write_target_comm (t t' : ValidationTarget) (v v' : json) (req : Request) :
  t <> t' ->
  write_target t v (write_target t' v' req)
  = write_target t' v' (write_target t v req).
Proof. destruct t, t'; intros H; try reflexivity; congruence. Qed.

(** X11: a successful validation replaces the validated section by Joi's
    output and touches nothing else: the other two sections, the method,
    the path, the [Authorization] header and the attached identity stay
    as they were. *)
Theorem validate_frame (schema : ObjectSchema) (target : option ValidationTarget)
    (req req' : Request) :
  validate schema target req = Continue req' ->
  let t := default target_body target in
  let result :=
    schema (read_target t req) {| abortEarly := false; stripUnknown := true |} in
  error result = None
  /\ read_target t req' = value result
  /\ (forall t', t' <> t -> read_target t' req' = read_target t' req)
  /\ method req' = method req /\ path req' = path req
  /\ authorization req' = authorization req /\ user req' = user req.
Proof.
  unfold validate. cbv zeta.
  destruct (error _) as [details|] eqn:Herr.
  - destruct (forEach details []); discriminate.
  - intros [= <-]. split_and!; try reflexivity.
    + rewrite read_write_target. now rewrite decide_True.
    + intros t' Hne. rewrite read_write_target. now rewrite decide_False.
Qed.

Lemma validate_frame_witness :
  let req :=
    {| method := "GET"; path := "/products";
       authorization := Some "Bearer abc";
       req_body := JNull;
       req_query := JObject [("page", JString "2"); ("debug", JBool true)];
       req_params := JObject [("id", JString "7")];
       user := None |} in
  let normalised := JObject [("page", JNumber 2); ("limit", JNumber 10)] in
  let req' := write_target target_query normalised req in
  req_query req' = normalised
  /\ req_params req' = JObject [("id", JString "7")]
  /\ authorization req' = Some "Bearer abc".
Proof.
  intros req normalised req'.
  destruct (validate_frame
              (fun _ _ => {| error := None; value := normalised |})
              (Some target_query) req req' eq_refl)
    as (_ & Hq & Hother & _ & _ & Ha & _).
  split_and!; [exact Hq | exact (Hother target_params ltac:(discriminate)) | exact Ha].
Defined.

Lemma validate_after_write (schema : ObjectSchema) (t t' : ValidationTarget)
    (v : json) (req : Request) :
  t <> t' ->
  validate schema (Some t) (write_target t' v req)
  = match validate schema (Some t) req with
    | Continue r => Continue (write_target t' v r)
    | other => other
    end.
Proof.
  intros Hne. unfold validate. simpl default.
  rewrite read_write_target. rewrite decide_False by congruence.
  destruct (error _); [destruct (forEach _ _); reflexivity|].
  now rewrite write_target_comm by exact Hne.
Qed.

(** X12: validations of two different sections do not interfere: run in
    either order they reach the handler with the same request, or both
    orders fail (each with the error of the first failing step). *)
Theorem validate_sections_commute (schema1 schema2 : ObjectSchema)
    (t1 t2 : ValidationTarget) (req : Request) :
  t1 <> t2 ->
  (exists r,
     run_chain [validate schema1 (Some t1); validate schema2 (Some t2)] req
       = Reached r
     /\ run_chain [validate schema2 (Some t2); validate schema1 (Some t1)] req
       = Reached r)
  \/ (exists e e',
     run_chain [validate schema1 (Some t1); validate schema2 (Some t2)] req
       = Failed e
     /\ run_chain [validate schema2 (Some t2); validate schema1 (Some t1)] req
       = Failed e').
Proof.
  intros Hne. cbn [run_chain].
  assert (Hshape : forall schema t r r',
            validate schema (Some t) r = Continue r' ->
            exists v, r' = write_target t v r).
  { intros schema t r r'. unfold validate. simpl default.
    destruct (error _); [destruct (forEach _ _); discriminate|].
    intros [= <-]. eauto. }
  pose proof (validate_never_responds schema1 (Some t1) req) as Hr1.
  pose proof (validate_never_responds schema2 (Some t2) req) as Hr2.
  destruct (validate schema1 (Some t1) req) as [r1|e1|e1|res1] eqn:H1;
    try (exfalso; eapply Hr1; reflexivity);
    destruct (validate schema2 (Some t2) req) as [r2|e2|e2|res2] eqn:H2;
    try (exfalso; eapply Hr2; reflexivity);
    try (destruct (Hshape _ _ _ _ H1) as (v1 & ->));
    try (destruct (Hshape _ _ _ _ H2) as (v2 & ->));
    rewrite ?(validate_after_write schema2 t2 t1) by congruence;
    rewrite ?(validate_after_write schema1 t1 t2) by congruence;
    rewrite ?H1, ?H2;
    try (right; eauto; fail).
  left. eexists. split; [reflexivity|].
  now rewrite write_target_comm by congruence.
Qed.

Lemma validate_sections_commute_witness :
  let body_schema : ObjectSchema :=
    fun _ _ => {| error := None; value := JObject [("name", JString "pen")] |} in
  let query_schema : ObjectSchema :=
    fun _ _ => {| error := None; value := JObject [("page", JNumber 1)] |} in
  let req :=
    {| method := "POST"; path := "/products"; authorization := None;
       req_body := JObject [("name", JString "pen"); ("x", JNull)];
       req_query := JObject []; req_params := JNull; user := None |} in
  run_chain [validate body_schema (Some target_body);
             validate query_schema (Some target_query)] req
  = run_chain [validate query_schema (Some target_query);
               validate body_schema (Some target_body)] req.
Proof.
  intros body_schema query_schema req.
  destruct (validate_sections_commute body_schema query_schema
              target_body target_query req ltac:(discriminate))
    as [(r & H1 & H2)|(e & e' & H1 & H2)].
  - now rewrite H1, H2.
  - discriminate H1.
Defined.

(** ** Pagination, further *)

(** X13: for safe integers, [1 <= limit < 2^53] and
    [0 <= total <= total' < 2^53], the page count grows with [total], is
    exact when [limit] divides [total] and equals [total] for [limit = 1];
    it never exceeds [total], so no page is empty. *)
Theorem totalPages_arithmetic (limit total total' : Z) :
  1 <= limit < 2 ^ 53 -> 0 <= total <= total' -> total' < 2 ^ 53 ->
  exists n n',
    Math_ceil_div total limit = Finite n
    /\ Math_ceil_div total' limit = Finite n'
    /\ 0 <= n <= n'
    /\ n <= total
    /\ (forall k, total = k * limit -> n = k)
    /\ (limit = 1 -> n = total).
Proof.
  intros Hl Ht Hs.
  destruct (Math_ceil_div_spec total limit ltac:(lia) ltac:(lia))
    as (n & Hn & Hb).
  destruct (Math_ceil_div_spec total' limit ltac:(lia) ltac:(lia))
    as (n' & Hn' & Hb').
  destruct Hl as [Hl _]. clear Hs.
  exists n, n'. split_and!; try assumption; nia.
Qed.

Lemma totalPages_arithmetic_witness :
  exists n n',
    Math_ceil_div 95 10 = Finite n /\ Math_ceil_div 101 10 = Finite n'
    /\ 0 <= n <= n'.
Proof.
  destruct (totalPages_arithmetic 10 95 101 ltac:(lia) ltac:(lia) ltac:(lia))
    as (n & n' & H1 & H2 & H3 & _).
  exists n, n'. split; [exact H1 | split; [exact H2 | exact H3]].
Defined.

(** X14: [sendPaginated] does not guard its divisor: with [limit = 0] the
    page count is no finite number (Infinity for a positive [total], NaN
    for [total = 0]), and the response is still a 200 success envelope. *)
Theorem sendPaginated_zero_limit {T} (message : string) (data : list T)
    (page total : Z) :
  0 <= total ->
  let res :=
    sendPaginated message data
      {| pagination_page := page; pagination_limit := 0;
         pagination_total := total |} in
  Response.status res = 200
  /\ Js.own "success" (body res) = Some (MBool true)
  /\ exists pages,
       Js.own "meta" (body res)
       = Some (MMeta {| Response.page := page; Response.limit := 0;
                        Response.total := total; totalPages := pages |})
       /\ (forall n, pages <> Finite n)
       /\ (0 < total -> pages = PosInfinity)
       /\ (total = 0 -> pages = NaN).
Proof.
  intros Ht. cbv zeta. split_and!; try reflexivity.
  exists (Math_ceil_div total 0). split; [reflexivity|].
  unfold Math_ceil_div. simpl.
  destruct (0 <? total) eqn:Hpos.
  - split_and!; [discriminate | reflexivity | lia].
  - apply Z.ltb_ge in Hpos. assert (total = 0) as -> by lia.
    split_and!; [discriminate | lia | reflexivity].
Qed.

Lemma sendPaginated_zero_limit_witness :
  Js.own "meta"
    (body (sendPaginated "Users" ["ann"]
             {| pagination_page := 1; pagination_limit := 0;
                pagination_total := 1 |}))
  = Some (MMeta {| Response.page := 1; Response.limit := 0;
                   Response.total := 1; totalPages := PosInfinity |}).
Proof.
  destruct (sendPaginated_zero_limit "Users" ["ann"] 1 1 ltac:(lia))
    as (_ & _ & pages & Hm & _ & Hpos & _).
  rewrite Hm. now rewrite (Hpos ltac:(lia)).
Defined.

(** ** Configuration *)

(** X15: of [isDevelopment], [isProduction] and [isTest] at most one is
    set, each exactly when [NODE_ENV] is that word, and then [env] is that
    word; [env] is never empty.  With [NODE_ENV] unset or empty, [env]
    reads [development] although [isDevelopment] is false. *)
Theorem config_flags (NODE_ENV : option string) :
  let c := Config.config NODE_ENV in
  (Config.isDevelopment c = true <-> NODE_ENV = Some "development")
  /\ (Config.isProduction c = true <-> NODE_ENV = Some "production")
  /\ (Config.isTest c = true <-> NODE_ENV = Some "test")
  /\ (Config.isDevelopment c && Config.isProduction c = false)
  /\ (Config.isDevelopment c && Config.isTest c = false)
  /\ (Config.isProduction c && Config.isTest c = false)
  /\ (Config.isDevelopment c = true -> Config.env c = "development")
  /\ (Config.isProduction c = true -> Config.env c = "production")
  /\ (Config.isTest c = true -> Config.env c = "test")
  /\ Config.env c <> ""
  /\ (NODE_ENV = None \/ NODE_ENV = Some "" ->
      Config.env c = "development" /\ Config.isDevelopment c = false).
Proof.
  cbv zeta. unfold Config.config; simpl.
  rewrite !bool_decide_eq_true.
  split_and!; try tauto.
  - do 2 case_bool_decide; simplify_eq; reflexivity.
  - do 2 case_bool_decide; simplify_eq; reflexivity.
  - do 2 case_bool_decide; simplify_eq; reflexivity.
  - now intros ->.
  - now intros ->.
  - now intros ->.
  - unfold Config.or_else. destruct NODE_ENV as [s|]; [|discriminate].
    destruct (decide (s = "")); [discriminate | assumption].
  - intros [->| ->]; split; reflexivity.
Qed.

(** ** Health probe, further *)

(** X16: [GET /health] answers 200 with status [healthy] whatever the
    database and the heap do: the response depends on the clock, the
    uptime and the version alone; the version is the environment's when
    that is set and not empty, [1.0.0] otherwise, and never empty. *)
Theorem basic_health (p p' : Probe) :
  now_iso p = now_iso p' -> process_uptime p = process_uptime p' ->
  npm_package_version p = npm_package_version p' ->
  check p = check p'
  /\ Response.status (check p) = 200
  /\ Js.own "message" (body (check p)) = Some (MString "Service is healthy")
  /\ Js.own "data" (body (check p)) = Some (MData (getHealthStatus p))
  /\ hs_status (getHealthStatus p) = healthy
  /\ hs_version (getHealthStatus p) <> ""
  /\ (forall v, npm_package_version p = Some v -> v <> "" ->
        hs_version (getHealthStatus p) = v)
  /\ (npm_package_version p = None \/ npm_package_version p = Some "" ->
        hs_version (getHealthStatus p) = "1.0.0").
Proof.
  intros Hn Hu Hv. unfold check, getHealthStatus. rewrite Hn, Hu, Hv.
  split_and!; try reflexivity; simpl; unfold Config.or_else.
  - destruct (npm_package_version p') as [v|]; [|discriminate].
    destruct (decide (v = "")); [discriminate | assumption].
  - intros v H Hne. rewrite H. now rewrite decide_False.
  - intros [H|H]; now rewrite H.
Qed.

Lemma basic_health_witness :
  check {| now_iso := "2024-01-01T00:00:00.000Z"; process_uptime := 12 # 1;
           npm_package_version := Some "2.3.1"; ping := QueryRejected;
           heapUsed := 30; heapTotal := 60 |}
  = check {| now_iso := "2024-01-01T00:00:00.000Z"; process_uptime := 12 # 1;
             npm_package_version := Some "2.3.1";
             ping := QueryResolved 100 104; heapUsed := 41; heapTotal := 64 |}.
Proof.
  refine (proj1 (basic_health _ _ eq_refl eq_refl eq_refl)).
Defined.

(** X17: the detailed report carries a latency exactly when the database
    is connected, and then it is the time between the two clock readings
    around the query, not negative when the clock did not go back; the
    message names the verdict and is never [Service is degraded]. *)
Theorem detailed_latency_and_message (Math_round_percent : Z -> Z -> Z)
    (p : Probe) :
  let health := getDetailedHealth Math_round_percent p in
  let db := database (dependencies health) in
  (db_status db = connected <-> is_Some (latency db))
  /\ (forall start finish, ping p = QueryResolved start finish ->
        latency db = Some (finish - start)
        /\ (start <= finish -> 0 <= finish - start))
  /\ (ping_succeeds p ->
        Js.own "message" (body (detailed Math_round_percent p))
        = Some (MString "Service is healthy"))
  /\ (~ ping_succeeds p ->
        Js.own "message" (body (detailed Math_round_percent p))
        = Some (MString "Service is unhealthy"))
  /\ Js.own "message" (body (detailed Math_round_percent p))
     <> Some (MString "Service is degraded").
Proof.
  cbv zeta. unfold detailed, getDetailedHealth, checkDatabase, ping_succeeds; simpl.
  destruct (ping p) as [| |start finish] eqn:Hp; simpl; split_and!;
    try reflexivity; try discriminate;
    try (split; [discriminate | intros [x Hx]; discriminate]);
    try (intros (s & f & H); discriminate);
    try (intros H; exfalso; apply H; eauto; fail).
  - split; [intros _; eauto | reflexivity].
  - intros s f [= <- <-]. split; [reflexivity | lia].
Qed.

(** ** Database module *)

Lemma run_app (calls calls' : list Database.Call) (st : Database.State) :
  Database.run (calls ++ calls') st = Database.run calls' (Database.run calls st).
Proof. unfold Database.run. apply fold_left_app. Qed.

Lemma call_keeps_client (c : Database.Call) (st : Database.State) :
  Database.is_initialize c = false ->
  Database.prisma (Database.call st c) = Database.prisma st
  /\ Database.created (Database.call st c) = Database.created st.
Proof.
  destruct c as [d connect|[e|]|]; simpl; try discriminate; intros _;
    try (split; reflexivity);
    unfold Database.disconnectDatabase;
    destruct (Database.prisma st) eqn:Hst; simpl; rewrite ?Hst;
    split; reflexivity.
Qed.

Lemma call_initialize (d : bool) (connect : option JsError) (st : Database.State) :
  Database.prisma (Database.call st (Database.Initialize d connect))
  = Some {| Database.client_id := Database.created st;
            Database.client_log :=
              if d then ["query"; "info"; "warn"; "error"] else ["error"] |}
  /\ Database.created (Database.call st (Database.Initialize d connect))
     = S (Database.created st).
Proof. destruct connect; split; reflexivity. Qed.

Lemma run_created (calls : list Database.Call) (st : Database.State) :
  Database.created (Database.run calls st)
  = (Database.created st
     + length (List.filter Database.is_initialize calls))%nat.
Proof.
  revert st. induction calls as [|c calls IH]; intros st.
  - simpl. lia.
  - change (Database.run (c :: calls) st)
      with (Database.run calls (Database.call st c)).
    rewrite IH. simpl List.filter.
    destruct (Database.is_initialize c) eqn:Hc.
    + destruct c as [d connect| |]; try discriminate.
      rewrite (proj2 (call_initialize d connect st)). simpl. lia.
    + now rewrite (proj2 (call_keeps_client c st Hc)).
Qed.

Lemma run_keeps_client (calls : list Database.Call) (st : Database.State) :
  Forall (fun c => Database.is_initialize c = false) calls ->
  Database.prisma (Database.run calls st) = Database.prisma st.
Proof.
  revert st. induction calls as [|c calls IH]; intros st Hno; [reflexivity|].
  apply Forall_cons in Hno as [Hc Hno].
  change (Database.run (c :: calls) st)
    with (Database.run calls (Database.call st c)).
  rewrite (IH _ Hno). exact (proj1 (call_keeps_client c st Hc)).
Qed.

Lemma run_client_is_Some (calls : list Database.Call) :
  is_Some (Database.prisma (Database.run calls Database.initial))
  <-> Exists (fun c => Database.is_initialize c = true) calls.
Proof.
  induction calls as [|c calls IH] using rev_ind.
  - simpl. split; [intros [x Hx]; discriminate | intros H; inversion H].
  - rewrite run_app, Exists_app, Exists_cons, Exists_nil.
    change (Database.run [c] ?st) with (Database.call st c).
    destruct (Database.is_initialize c) eqn:Hc.
    + destruct c as [d connect| |]; try discriminate.
      rewrite (proj1 (call_initialize d connect _)). split; eauto.
    + rewrite (proj1 (call_keeps_client c _ Hc)), IH.
      split; [auto | intros [H|[H|[]]]; [exact H | congruence]].
Qed.

(** X18: over any sequence of calls on the database module,
    [getDatabase] throws exactly as long as [initializeDatabase] was never
    called; afterwards it returns the client the latest
    [initializeDatabase] created, also when that call's connection attempt
    failed and also after [disconnectDatabase]: nothing unsets the
    client. *)
Theorem getDatabase_by_history :
  (forall calls,
     Forall (fun c => Database.is_initialize c = false) calls ->
     Database.getDatabase (Database.run calls Database.initial)
     = inl (Error_ Error_prototype
              "Database not initialized. Call initializeDatabase first."))
  /\ (forall before isDevelopment connect after,
     Forall (fun c => Database.is_initialize c = false) after ->
     Database.getDatabase
       (Database.run (before ++ Database.Initialize isDevelopment connect :: after)
          Database.initial)
     = inr {| Database.client_id :=
                length (List.filter Database.is_initialize before);
              Database.client_log :=
                if isDevelopment then ["query"; "info"; "warn"; "error"]
                else ["error"] |})
  /\ (forall calls,
     (exists e, Database.getDatabase (Database.run calls Database.initial) = inl e)
     <-> Forall (fun c => Database.is_initialize c = false) calls).
Proof.
  split_and!.
  - intros calls Hno. unfold Database.getDatabase.
    now rewrite (run_keeps_client calls _ Hno).
  - intros before d connect after Hno. unfold Database.getDatabase.
    rewrite run_app.
    change (Database.run (?c :: after) ?st)
      with (Database.run after (Database.call st c)).
    rewrite (run_keeps_client after _ Hno).
    rewrite (proj1 (call_initialize d connect _)), run_created. reflexivity.
  - intros calls. unfold Database.getDatabase.
    pose proof (run_client_is_Some calls) as Hs.
    destruct (Database.prisma (Database.run calls Database.initial)) as [client|].
    + split; [intros (e & He); discriminate|]. intros Hall. exfalso.
      assert (Hex : Exists (fun c => Database.is_initialize c = true) calls)
        by (apply Hs; eauto).
      apply Exists_exists in Hex as (c & Hin & Hc).
      rewrite Forall_forall in Hall. specialize (Hall c Hin). congruence.
    + split; [intros _ | eauto].
      apply Forall_forall. intros c Hin.
      destruct (Database.is_initialize c) eqn:Hc; [|reflexivity].
      assert (Hex : Exists (fun c => Database.is_initialize c = true) calls)
        by (apply Exists_exists; eauto).
      apply Hs in Hex. now destruct Hex.
Qed.

Lemma getDatabase_by_history_witness :
  Database.getDatabase
    (Database.run
       [ Database.Get;
         Database.Initialize false (Some (TypeError "connect ECONNREFUSED"));
         Database.Disconnect None ]
       Database.initial)
  = inr {| Database.client_id := 0; Database.client_log := ["error"] |}.
Proof.
  refine (proj1 (proj2 getDatabase_by_history) [Database.Get] false
            (Some (TypeError "connect ECONNREFUSED")) [Database.Disconnect None] _).
  now repeat constructor.
Defined.

(** X19: [GET /health/detailed], with the ping read off the database
    module: it answers 200 exactly when [initializeDatabase] has been
    called and the query resolves, and 503 in every other case, in
    particular always before the first [initializeDatabase]; [GET
    /health] answers 200 throughout. *)
Theorem detailed_health_by_history (Math_round_percent : Z -> Z -> Z)
    (p : Probe) (calls : list Database.Call) (query : option (Z * Z)) :
  ping p = Database.observed_ping (Database.run calls Database.initial) query ->
  (Response.status (detailed Math_round_percent p) = 200
   <-> Exists (fun c => Database.is_initialize c = true) calls /\ is_Some query)
  /\ (Response.status (detailed Math_round_percent p) = 200
      \/ Response.status (detailed Math_round_percent p) = 503)
  /\ Response.status (check p) = 200.
Proof.
  intros Hp. pose proof (run_client_is_Some calls) as Hget.
  unfold detailed, getDetailedHealth, checkDatabase. rewrite Hp.
  unfold Database.observed_ping, Database.getDatabase.
  destruct (Database.prisma (Database.run calls Database.initial)) as [client|].
  - destruct query as [[start finish]|]; simpl; split_and!; try reflexivity; auto.
    + split; [intros _; split; [apply Hget; eauto | eauto] | reflexivity].
    + split; [discriminate | intros (_ & Hq); now destruct Hq].
  - simpl. split_and!; try reflexivity; auto.
    split; [discriminate|]. intros (Hex & _). apply Hget in Hex. now destruct Hex.
Qed.

Lemma detailed_health_by_history_witness :
  Response.status
    (detailed (fun used total => 100 * used / total)
       {| now_iso := "2024-01-01T00:00:00.000Z"; process_uptime := 3 # 1;
          npm_package_version := None; ping := NotInitialized;
          heapUsed := 30; heapTotal := 60 |}) = 503.
Proof.
  destruct (detailed_health_by_history (fun used total => 100 * used / total)
              {| now_iso := "2024-01-01T00:00:00.000Z"; process_uptime := 3 # 1;
                 npm_package_version := None; ping := NotInitialized;
                 heapUsed := 30; heapTotal := 60 |}
              [Database.Get; Database.Disconnect None] (Some (5, 9)) eq_refl)
    as (Hiff & [H|H] & _).
  - apply Hiff in H as (Hex & _). exfalso.
    apply Exists_cons in Hex as [Hc|Hex]; [discriminate|].
    apply Exists_cons in Hex as [Hc|Hex]; [discriminate|]. inversion Hex.
  - exact H.
Defined.

(** ** Rate limiters *)

(** X20: every limiter this file builds, the default one, the strict one
    and any made by [createRateLimiter], hands a blocked request to the
    error handler instead of answering it: its handler signals a
    TooManyRequests error (429, [RATE_LIMITED]), the error handler answers
    429 with the limiter's own message in every environment, the standard
    rate-limit headers are on and the legacy ones off. *)
Theorem rate_limiters_signal (cfg : Config.Config) (windowMs max : Z)
    (req : Request) :
  Forall
    (fun limiter =>
       RateLimiter.standardHeaders limiter = true
       /\ RateLimiter.legacyHeaders limiter = false
       /\ exists text,
            RateLimiter.handler limiter req
            = Signal (TooManyRequestsError (Some text) None)
            /\ fields (TooManyRequestsError (Some text) None)
               = (Some 429, Some "RATE_LIMITED", text, Some true)
            /\ run_chain [RateLimiter.handler limiter] req
               = Failed (TooManyRequestsError (Some text) None)
            /\ respond cfg (TooManyRequestsError (Some text) None)
               = failure 429 text
            /\ (forall m, RateLimiter.message limiter = Some m -> m = text))
    [ RateLimiter.defaultRateLimiter windowMs max;
      RateLimiter.strictRateLimiter;
      RateLimiter.createRateLimiter windowMs max ]
  /\ RateLimiter.windowMs (RateLimiter.createRateLimiter windowMs max) = windowMs
  /\ RateLimiter.max (RateLimiter.createRateLimiter windowMs max) = max
  /\ RateLimiter.windowMs RateLimiter.strictRateLimiter = 900000
  /\ RateLimiter.max RateLimiter.strictRateLimiter = 10.
Proof.
  split_and!; try reflexivity.
  repeat constructor; eexists; (split_and!; try reflexivity);
    intros m H; simpl in H; congruence.
Qed.

(** ** Overall status *)

(** X21: [determineOverallStatus] on any list of dependency statuses: the
    verdict is unhealthy exactly when every status is disconnected, which
    includes the empty list; degraded exactly when one is disconnected and
    another connected, which takes at least two dependencies; healthy
    exactly when the list is not empty and every status is connected. *)
Theorem determineOverallStatus_characterisation (statuses : list DbStatus) :
  (determineOverallStatus statuses = unhealthy
   <-> Forall (fun s => s = disconnected) statuses)
  /\ (determineOverallStatus statuses = degraded
      <-> Exists (fun s => s = disconnected) statuses
          /\ Exists (fun s => s = connected) statuses)
  /\ (determineOverallStatus statuses = healthy
      <-> statuses <> [] /\ Forall (fun s => s = connected) statuses)
  /\ determineOverallStatus [] = unhealthy
  /\ (determineOverallStatus statuses = degraded -> (2 <= length statuses)%nat).
Proof.
  destruct (determineOverallStatus_spec statuses) as (Hall & Hsome & Hnone).
  assert (Hconn : Forall (fun s => s = connected) statuses
                  <-> ~ Exists (fun s => s = disconnected) statuses).
  { rewrite <- Forall_Exists_neg. apply Forall_proper; [|reflexivity].
    intros s. destruct s; split; congruence. }
  assert (Hmix : Exists (fun s => s = connected) statuses
                 <-> ~ Forall (fun s => s = disconnected) statuses).
  { rewrite <- Exists_Forall_neg by (intros s; destruct s; auto; right; discriminate).
    apply Exists_proper; [|reflexivity].
    intros s. destruct s; split; congruence. }
  destruct (decide (Forall (fun s => s = disconnected) statuses)) as [Ha|Ha].
  - rewrite (Hall Ha). split_and!; try reflexivity; try discriminate.
    + tauto.
    + split; [discriminate | intros (_ & Hc); apply Hmix in Hc; contradiction].
    + split; [discriminate|]. intros (Hne & Hc). exfalso.
      destruct statuses as [|s rest]; [congruence|].
      apply Forall_cons in Ha as [-> _]. apply Forall_cons in Hc as [Hc _].
      discriminate.
  - destruct (decide (Exists (fun s => s = disconnected) statuses)) as [He|He].
    + rewrite (Hsome He Ha). split_and!; try reflexivity.
      * split; [discriminate | contradiction].
      * split; [intros _; split; [exact He | now apply Hmix] | reflexivity].
      * split; [discriminate | intros (_ & Hc); apply Hconn in Hc; contradiction].
      * intros _. apply degraded_needs_two. exact (Hsome He Ha).
    + assert (Hne : statuses <> []) by (intros ->; apply Ha; constructor).
      rewrite (Hnone Hne He). split_and!; try reflexivity; try discriminate.
      * split; [discriminate | contradiction].
      * split; [discriminate | intros (H & _); contradiction].
      * split; [intros _; split; [exact Hne | now apply Hconn] | reflexivity].
Qed.
